(** * Cluster key manager: kmgr.c and kmgr_utils.c

    A shallow embedding of the key manager of src/backend/crypto/kmgr.c and
    src/common/kmgr_utils.c (backend build, i.e. the [#ifndef FRONTEND]
    branches, where [ereport(ERROR)] and [elog(ERROR)] leave the function).

    - C strings are [string]s holding the characters before the terminating
      NUL; bytes are [Z] in 0..255; C integers are [Z].
    - A [CryptoKey] is kept as its object representation, the
      [sizeof(CryptoKey)] bytes that [read] and [palloc0] handle; its
      declaration (kmgr_utils.h) is not among the sources.
    - Functions that can raise return a [result]; functions that change the
      file system or the shared memory pass the state explicitly. *)

From Stdlib Require Import ZArith List String Ascii Lia Permutation Bool.
From stdpp Require Import base list strings.

Import ListNotations.
Local Open Scope string_scope.
Local Open Scope Z_scope.

(** ** Errors and results *)

(** The two directories of the key store: [KMGR_DIR] is pg_cryptokeys and
    [KMGR_TMP_DIR] is pg_cryptokeys_tmp. *)
Inductive path : Type :=
| KMGR_DIR
| KMGR_TMP_DIR.

(** One constructor per [ereport(ERROR)] / [elog(ERROR)] site of the two
    files, and one for a failed [Assert] of an assert-enabled build. *)
Inductive error : Type :=
| could_not_open_directory (p : path)
| invalid_key_identifier (id : Z)
| too_many_keys
| could_not_open_file (p : path) (name : string)
| could_not_read_file (p : path) (name : string) (r : Z)
| could_not_rename (src dst : path)
| could_not_execute_command (command : string)
| could_not_read_from_command (command : string)
| could_not_close_pipe
| command_failed (command : string)
| passphrase_does_not_match
| key_management_not_supported
| assertion_failed
| buffer_overrun.

Inductive result (A : Type) : Type :=
| OK (a : A)
| ERROR (e : error).

Arguments OK {A} a.
Arguments ERROR {A} e.

Definition is_OK {A} (r : result A) : bool :=
  match r with OK _ => true | ERROR _ => false end.

(** ** Key file names *)

(** [strchr(accept, c) != NULL] for a character [c] other than NUL. *)
Fixpoint strchr (accept : string) (c : ascii) : bool :=
  match accept with
  | EmptyString => false
  | String a rest => if Ascii.eqb a c then true else strchr rest c
  end.

(** [strspn(s, accept)]: length of the longest prefix of [s] made of
    characters of [accept]. *)
Fixpoint strspn (s accept : string) : nat :=
  match s with
  | EmptyString => O
  | String c rest => if strchr accept c then S (strspn rest accept) else O
  end.

Definition strlen (s : string) : nat := String.length s.

(** The test of kmgr_get_cryptokeys on a directory entry:
    [strlen(de->d_name) == 4 && strspn(de->d_name, "0123456789ABCDEF") == 4]. *)
Definition is_key_file_name (d_name : string) : bool :=
  Nat.eqb (strlen d_name) 4 && Nat.eqb (strspn d_name "0123456789ABCDEF") 4.

(** The position of a character in a string of digits. *)
Fixpoint digit_index (digits : string) (c : ascii) (i : Z) : option Z :=
  match digits with
  | EmptyString => None
  | String d rest => if Ascii.eqb d c then Some i else digit_index rest c (i + 1)
  end.

(** The value of a hexadecimal digit, in either case. *)
Definition hex_digit_value (c : ascii) : option Z :=
  match digit_index "0123456789ABCDEF" c 0 with
  | Some d => Some d
  | None => digit_index "0123456789abcdef" c 0
  end.

Fixpoint strtoul_digits (s : string) (acc : Z) : Z :=
  match s with
  | EmptyString => acc
  | String c rest =>
      match hex_digit_value c with
      | Some d => strtoul_digits rest (acc * 16 + d)
      | None => acc
      end
  end.

(** [strtoul(s, NULL, 16)] on a string that starts with its digits: the
    value of the longest prefix of hexadecimal digits.  (The library
    function also skips leading blanks, a sign and a 0x prefix and
    saturates at ULONG_MAX; no name that passes [is_key_file_name] takes
    those paths.) *)
Definition strtoul16 (s : string) : Z := strtoul_digits s 0.

(** Conversion to [uint32], the type of [id] in kmgr_get_cryptokeys. *)
Definition to_uint32 (z : Z) : Z := z mod 2 ^ 32.

(** The digit that %X prints for a value below 16. *)
Definition hex_char (d : Z) : ascii :=
  match String.get (Z.to_nat d) "0123456789ABCDEF" with
  | Some c => c
  | None => "0"%char
  end.

Fixpoint hex_digits (fuel : nat) (n : Z) (acc : string) : string :=
  match fuel with
  | O => acc
  | S fuel' =>
      let acc' := String (hex_char (n mod 16)) acc in
      if n / 16 =? 0 then acc' else hex_digits fuel' (n / 16) acc'
  end.

(** Left padding with zeros up to [width] characters. *)
Definition zero_pad (width : nat) (s : string) : string :=
  string_of_list_ascii (repeat "0"%char (width - String.length s)) ++ s.

(** Modelled from the spec: the macro CryptoKeyFilePath (kmgr_utils.h, not
    among the sources) yields [dir/<hex(id)>], the identifier "persisted as
    a 4-character uppercase hexadecimal filename (e.g. 0000)", that is the
    format %04X of a [uint32].  This is the file name part. *)
Definition CryptoKeyFileName (id : Z) : string :=
  zero_pad 4 (hex_digits 8 id "").

(** ** The key store on disk *)

(** A [CryptoKey] as its bytes. *)
Abbreviation CryptoKey := (list Z).

(** A directory as [readdir] lists it: entries in enumeration order, each
    with the bytes of the file of that name (for entries such as "." and
    ".." the bytes play no role). *)
Definition directory : Type := list (string * list Z).

Record filesystem : Type := mk_fs {
  pg_cryptokeys : option directory;
  pg_cryptokeys_tmp : option directory
}.

(** What [stat], [opendir] and [AllocateDir] find at a path. *)
Definition fs_dir (fs : filesystem) (p : path) : option directory :=
  match p with
  | KMGR_DIR => pg_cryptokeys fs
  | KMGR_TMP_DIR => pg_cryptokeys_tmp fs
  end.

Definition fs_set (fs : filesystem) (p : path) (d : option directory) : filesystem :=
  match p with
  | KMGR_DIR => mk_fs d (pg_cryptokeys_tmp fs)
  | KMGR_TMP_DIR => mk_fs (pg_cryptokeys fs) d
  end.

(** [stat(p, &st) == 0]. *)
Definition stat_ok (fs : filesystem) (p : path) : bool :=
  match fs_dir fs p with Some _ => true | None => false end.

(** [rmtree(p, true)] when it succeeds: the directory and all it holds are
    gone.  The file system of this development cooperates: a [rmtree]
    never fails, and a [rename] fails only for the reasons given below.
    The branches of recoverIncompleteRotation that raise when [rmtree]
    returns false (kmgr.c, lines 357 to 360 and 380 to 383) are therefore
    never taken here, and [rmtree] has no error to return. *)
Definition rmtree (fs : filesystem) (p : path) : filesystem := fs_set fs p None.

(** [rename(src, dst)] of a directory: fails when [src] does not exist or
    [dst] exists and is not empty. *)
Definition rename (fs : filesystem) (src dst : path) : result filesystem :=
  match fs_dir fs src with
  | None => ERROR (could_not_rename src dst)
  | Some d =>
      match fs_dir fs dst with
      | Some (_ :: _) => ERROR (could_not_rename src dst)
      | _ => OK (fs_set (fs_set fs src None) dst (Some d))
      end
  end.

(** The file of a given name in a directory. *)
Fixpoint dir_file (d : directory) (name : string) : option (list Z) :=
  match d with
  | [] => None
  | (n, bytes) :: rest => if String.eqb n name then Some bytes else dir_file rest name
  end.

(** The AEAD interface of common/aead.h, which is not among the sources.
    [pg_aead_encrypt ctx in] stands for the call
    [pg_aead_encrypt(ctx, in->key, in->klen, out->key, &(out->klen))] and
    [pg_aead_decrypt] likewise: the value is the boolean returned and what
    the call does to the bytes of [*out], which it only writes. *)
Class Aead : Type := {
  PgAeadCtx : Type;
  pg_create_aead_ctx : list Z -> list Z -> PgAeadCtx;
  pg_aead_encrypt : PgAeadCtx -> CryptoKey -> bool * (CryptoKey -> CryptoKey);
  pg_aead_decrypt : PgAeadCtx -> CryptoKey -> bool * (CryptoKey -> CryptoKey)
}.

Section Kmgr.

(** Constants of kmgr.h and kmgr_utils.h, which are not among the
    sources: the number of internal keys and [sizeof(CryptoKey)]. *)
Variable KMGR_MAX_INTERNAL_KEYS : Z.
Variable sizeof_CryptoKey : nat.

(** [palloc0(sizeof(CryptoKey) * KMGR_MAX_INTERNAL_KEYS)]. *)
Definition zero_key : CryptoKey := repeat 0 sizeof_CryptoKey.
Definition zero_keys : list CryptoKey :=
  repeat zero_key (Z.to_nat KMGR_MAX_INTERNAL_KEYS).

(** read_one_keyfile: open [dir/<hex(id)>], read [sizeof(CryptoKey)]
    bytes; a short read is an error. *)
Definition read_one_keyfile (p : path) (d : directory) (id : Z) : result CryptoKey :=
  match dir_file d (CryptoKeyFileName id) with
  | None => ERROR (could_not_open_file p (CryptoKeyFileName id))
  | Some bytes =>
      let r := Nat.min (length bytes) sizeof_CryptoKey in
      if Nat.eqb r sizeof_CryptoKey
      then OK (firstn sizeof_CryptoKey bytes)
      else ERROR (could_not_read_file p (CryptoKeyFileName id) (Z.of_nat r))
  end.

(** The [while ((de = ReadDir(dir, ...)) != NULL)] loop of
    kmgr_get_cryptokeys, over the entries still to come. *)
Fixpoint read_entries (p : path) (d : directory) (entries : directory)
    (keys : list CryptoKey) (nkeys : Z) : result (list CryptoKey * Z) :=
  match entries with
  | [] => OK (keys, nkeys)
  | (d_name, _) :: rest =>
      if is_key_file_name d_name then
        let id := to_uint32 (strtoul16 d_name) in
        if (id <? 0) || (id >=? KMGR_MAX_INTERNAL_KEYS) then
          ERROR (invalid_key_identifier id)
        else if nkeys >=? KMGR_MAX_INTERNAL_KEYS then
          ERROR too_many_keys
        else
          match read_one_keyfile p d id with
          | ERROR e => ERROR e
          | OK k => read_entries p d rest (<[Z.to_nat id := k]> keys) (nkeys + 1)
          end
      else read_entries p d rest keys nkeys
  end.

Definition kmgr_get_cryptokeys (fs : filesystem) (p : path) : result (list CryptoKey * Z) :=
  match fs_dir fs p with
  | None => ERROR (could_not_open_directory p)
  | Some d => read_entries p d d zero_keys 0
  end.


(** ** Recovery of an interrupted passphrase rotation *)

(** recoverIncompleteRotation.  The result is the error raised, if any, and
    the file system left behind. *)
Definition recoverIncompleteRotation (fs : filesystem) : result unit * filesystem :=
  if negb (stat_ok fs KMGR_TMP_DIR) then (OK tt, fs)
  else if negb (stat_ok fs KMGR_DIR) then
    match rename fs KMGR_TMP_DIR KMGR_DIR with
    | ERROR e => (ERROR e, fs)
    | OK fs' => (OK tt, fs')
    end
  else
    match kmgr_get_cryptokeys fs KMGR_TMP_DIR with
    | ERROR e => (ERROR e, fs)
    | OK (keys, nkeys_tmp) =>
        if nkeys_tmp =? KMGR_MAX_INTERNAL_KEYS then
          let fs1 := rmtree fs KMGR_DIR in
          match rename fs1 KMGR_TMP_DIR KMGR_DIR with
          | ERROR e => (ERROR e, fs1)
          | OK fs2 => (OK tt, fs2)
          end
        else (OK tt, rmtree fs KMGR_TMP_DIR)
    end.

(** ** The passphrase command *)

Definition KMGR_PROMPT_MSG : string := "Enter database encryption pass phrase:".

Definition NUL : ascii := "000"%char.

(** [MAXPGPATH] (pg_config_manual.h) and the macro [StrNCpy] (c.h) are not
    among the sources.  [StrNCpy buf dst src len] is the buffer after
    [StrNCpy(buf + dst, src, len)], or an error when it writes outside. *)
Variable MAXPGPATH : nat.
Variable StrNCpy : list ascii -> nat -> string -> nat -> result (list ascii).

(** [command + MAXPGPATH - 1]. *)
Definition endp : nat := (MAXPGPATH - 1)%nat.

(** [if (dp < endp) *dp++ = c;] *)
Definition put_char (command : list ascii) (dp : nat) (c : ascii) : list ascii * nat :=
  if Nat.ltb dp endp then (<[dp := c]> command, S dp) else (command, dp).

(** The [for (p = passphrase_command; *p; p++)] loop that fills [command];
    [p] is the rest of the template, [dp] the write offset. *)
Fixpoint substitute (p : string) (command : list ascii) (dp : nat)
    : result (list ascii * nat) :=
  match p with
  | EmptyString => OK (command, dp)
  | String c rest =>
      if Ascii.eqb c "%" then
        match rest with
        | String "p" rest' =>
            match StrNCpy command dp KMGR_PROMPT_MSG (strlen KMGR_PROMPT_MSG) with
            | ERROR e => ERROR e
            | OK command' => substitute rest' command' (dp + strlen KMGR_PROMPT_MSG)
            end
        | String "%" rest' =>
            let '(command', dp') := put_char command dp "%" in
            substitute rest' command' dp'
        | _ =>
            let '(command', dp') := put_char command dp c in
            substitute rest command' dp'
        end
      else
        let '(command', dp') := put_char command dp c in
        substitute rest command' dp'
  end.

(** A store through a [char *] into [command]: outside the array it is a
    buffer overrun. *)
Definition poke (command : list ascii) (i : nat) (c : ascii) : result (list ascii) :=
  if Nat.ltb i (length command) then OK (<[i := c]> command) else ERROR buffer_overrun.

(** The C string held in a buffer: the characters before the first NUL. *)
Fixpoint c_string (buf : list ascii) : string :=
  match buf with
  | [] => EmptyString
  | c :: rest => if Ascii.eqb c NUL then EmptyString else String c (c_string rest)
  end.

(** The first part of kmgr_run_cluster_passphrase_command: the array
    [command] once the template is substituted and terminated.  [stack]
    gives the indeterminate initial contents of the local array. *)
Definition build_command_buffer (stack : nat -> ascii) (passphrase_command : string)
    : result (list ascii) :=
  let command := <[endp := NUL]> (map stack (seq 0 MAXPGPATH)) in
  match substitute passphrase_command command 0 with
  | ERROR e => ERROR e
  | OK (command', dp) => poke command' dp NUL
  end.

Definition build_command (stack : nat -> ascii) (passphrase_command : string)
    : result string :=
  match build_command_buffer stack passphrase_command with
  | ERROR e => ERROR e
  | OK command => OK (c_string command)
  end.

(** What the child process does, as seen through the pipe. *)
Record pipe : Type := mk_pipe {
  pipe_opened : bool;       (* OpenPipeStream returned a stream *)
  pipe_output : list Z;     (* the bytes the command writes to stdout *)
  pipe_ferror : bool;       (* ferror after a short fread *)
  pipe_close_rc : Z         (* the value of ClosePipeStream *)
}.

Variable OpenPipeStream : string -> pipe.

(** GUC variables and the build option USE_ASSERT_CHECKING, under which
    [Assert] tests its condition. *)
Variable key_management_enabled : bool.
Variable cluster_passphrase_command : string.
Variable USE_ASSERT_CHECKING : bool.

(** kmgr_run_cluster_passphrase_command.  The value is the bytes the call
    leaves at the start of [buf], that is the NUL stored into [buf[0]]
    with what [fread] reads written over it, and the length returned.
    [size] is a natural number: a negative [size] fails the assertion in
    an assert-enabled build and is not modelled in another. *)
Definition kmgr_run_cluster_passphrase_command (stack : nat -> ascii)
    (passphrase_command : string) (size : nat) : result (list Z * Z) :=
  if USE_ASSERT_CHECKING && negb (Nat.ltb 0 size) then ERROR assertion_failed
  else
    let buf := [0] in                                (* buf[0] = 0 *)
    match build_command stack passphrase_command with
    | ERROR e => ERROR e
    | OK command =>
        let fh := OpenPipeStream command in
        if negb (pipe_opened fh) then ERROR (could_not_execute_command command)
        else
          let read := firstn size (pipe_output fh) in
          let len := length read in
          let buf := (read ++ skipn len buf)%list in   (* fread(buf, 1, size, fh) *)
          if Nat.ltb len size && pipe_ferror fh then
            ERROR (could_not_read_from_command command)
          else if pipe_close_rc fh =? -1 then ERROR could_not_close_pipe
          else if negb (pipe_close_rc fh =? 0) then ERROR (command_failed command)
          else OK (buf, Z.of_nat len)
    end.

(** ** Wrapping, unwrapping and passphrase verification *)

Context {aead : Aead}.

Definition kmgr_wrap_key (ctx : PgAeadCtx) (key_in key_out : CryptoKey) : bool * CryptoKey :=
  let '(ok, write) := pg_aead_encrypt ctx key_in in
  if negb ok then (false, write key_out) else (true, write key_out).

Definition kmgr_unwrap_key (ctx : PgAeadCtx) (key_in key_out : CryptoKey) : bool * CryptoKey :=
  let '(ok, write) := pg_aead_decrypt ctx key_in in
  if negb ok then (false, write key_out) else (true, write key_out).

(** kmgr_derive_keys: the body is empty, so [enckey] and [mackey] keep
    what they held. *)
Definition kmgr_derive_keys (passphrase : list Z) (passlen : Z)
    (enckey mackey : list Z) : list Z * list Z :=
  (enckey, mackey).

(** The loop [for (int i = 0; i < nkeys; i++)] of kmgr_verify_passphrase,
    from index [i] with [todo] rounds left.  Reading or writing past either
    array is a buffer overrun. *)
Fixpoint unwrap_from (ctx : PgAeadCtx) (keys_in keys_out : list CryptoKey)
    (i todo : nat) : result (bool * list CryptoKey) :=
  match todo with
  | O => OK (true, keys_out)
  | S todo' =>
      match keys_in !! i, keys_out !! i with
      | Some key_in, Some key_out =>
          let '(ok, out') := kmgr_unwrap_key ctx key_in key_out in
          if negb ok then OK (false, <[i := out']> keys_out)
          else unwrap_from ctx keys_in (<[i := out']> keys_out) (S i) todo'
      | _, _ => ERROR buffer_overrun
      end
  end.

(** kmgr_verify_passphrase.  [user_enckey] and [user_hmackey] are the
    indeterminate initial contents of the two local arrays.  The value is
    the boolean returned and the array [keys_out] afterwards. *)
Definition kmgr_verify_passphrase (user_enckey user_hmackey : list Z)
    (passphrase : list Z) (passlen : Z)
    (keys_in keys_out : list CryptoKey) (nkeys : Z) : result (bool * list CryptoKey) :=
  let '(enckey, hmackey) := kmgr_derive_keys passphrase passlen user_enckey user_hmackey in
  let tmpctx := pg_create_aead_ctx enckey hmackey in
  unwrap_from tmpctx keys_in keys_out 0 (Z.to_nat nkeys).

(** ** The coordinator *)

(** The state the coordinator works on: the key directories, the array
    [KmgrShmem->intlKeys], and the templates handed so far to
    kmgr_run_cluster_passphrase_command (latest first). *)
Record state : Type := mk_state {
  disk : filesystem;
  intlKeys : list CryptoKey;
  commands_run : list string
}.

Definition set_disk (st : state) (fs : filesystem) : state :=
  mk_state fs (intlKeys st) (commands_run st).

(** The constant KMGR_MAX_PASSPHRASE_LEN (kmgr_utils.h) and the
    indeterminate initial contents of the local arrays. *)
Variable KMGR_MAX_PASSPHRASE_LEN : nat.
Variable stack_command : nat -> ascii.
Variable stack_enckey stack_hmackey : list Z.

(** KmgrShmemInit: [found] is what ShmemInitStruct reports; a segment not
    found before is zeroed. *)
Definition KmgrShmemInit (found : bool) (st : state) : state :=
  if negb key_management_enabled then st
  else if negb found then mk_state (disk st) zero_keys (commands_run st)
  else st.

(** InitializeKmgr. *)
Definition InitializeKmgr (st : state) : result unit * state :=
  if negb key_management_enabled then (OK tt, st)
  else
    match recoverIncompleteRotation (disk st) with
    | (ERROR e, fs) => (ERROR e, set_disk st fs)
    | (OK _, fs) =>
        let st1 := set_disk st fs in
        match kmgr_get_cryptokeys fs KMGR_DIR with
        | ERROR e => (ERROR e, st1)
        | OK (keys_wrap, nkeys) =>
            if USE_ASSERT_CHECKING && negb (nkeys =? KMGR_MAX_INTERNAL_KEYS)
            then (ERROR assertion_failed, st1)
            else
              let st2 := mk_state fs (intlKeys st1)
                           (cluster_passphrase_command :: commands_run st1) in
              match kmgr_run_cluster_passphrase_command stack_command
                      cluster_passphrase_command KMGR_MAX_PASSPHRASE_LEN with
              | ERROR e => (ERROR e, st2)
              | OK (passphrase, passlen) =>
                  match kmgr_verify_passphrase stack_enckey stack_hmackey
                          passphrase passlen keys_wrap (intlKeys st2)
                          KMGR_MAX_INTERNAL_KEYS with
                  | ERROR e => (ERROR e, st2)
                  | OK (ok, keys_out) =>
                      let st3 := mk_state fs keys_out (commands_run st2) in
                      if negb ok then (ERROR passphrase_does_not_match, st3)
                      else (OK tt, st3)
                  end
              end
        end
    end.

(** A [const CryptoKey *]: null, or the address of a slot of
    [KmgrShmem->intlKeys]. *)
Inductive CryptoKey_ptr : Type :=
| NULL
| intlKeys_slot (id : Z).

(** KmgrGetKey: the part between the two marker comments is empty, so
    [thekey] is returned as initialised. *)
Definition KmgrGetKey (id : Z) : result CryptoKey_ptr :=
  if USE_ASSERT_CHECKING && negb (id <? KMGR_MAX_INTERNAL_KEYS)
  then ERROR assertion_failed
  else
    let thekey := NULL in
    OK thekey.

(** generate_crypto_key: the part between the two marker comments is empty,
    so [newkey] is returned as initialised. *)
Definition generate_crypto_key (len : Z) : CryptoKey_ptr :=
  let newkey := NULL in
  newkey.

(** KmgrSaveCryptoKeys: the loop computes each file path and does nothing
    with it, the part between the two marker comments being empty; the
    file system is left as it was. *)
Definition KmgrSaveCryptoKeys (dir : path) (keys : list CryptoKey) (fs : filesystem)
    : filesystem :=
  fold_left (fun fs' i => let path := CryptoKeyFileName (Z.of_nat i) in fs')
    (seq 0 (Z.to_nat KMGR_MAX_INTERNAL_KEYS)) fs.

(** pg_rotate_cluster_passphrase: the part between the two marker comments
    is empty; the locals are declared and never used. *)
Definition pg_rotate_cluster_passphrase (st : state) : result bool * state :=
  if negb key_management_enabled then (ERROR key_management_not_supported, st)
  else
    match recoverIncompleteRotation (disk st) with
    | (ERROR e, fs) => (ERROR e, set_disk st fs)
    | (OK _, fs) => (OK true, set_disk st fs)
    end.

End Kmgr.

Definition upper_hex_chars : list ascii := list_ascii_of_string "0123456789ABCDEF".

Definition name_of (a b c d : ascii) : string :=
  String a (String b (String c (String d EmptyString))).

Definition name_roundtrip_ok (a b c d : ascii) : bool :=
  let id := to_uint32 (strtoul16 (name_of a b c d)) in
  String.eqb (CryptoKeyFileName id) (name_of a b c d) && (0 <=? id) && (id <? 65536).

Definition hex_values : list Z := map Z.of_nat (seq 0 16).

Definition id_of_digits (d3 d2 d1 d0 : Z) : Z := ((d3 * 16 + d2) * 16 + d1) * 16 + d0.

Definition id_roundtrip_ok (d3 d2 d1 d0 : Z) : bool :=
  let name := CryptoKeyFileName (id_of_digits d3 d2 d1 d0) in
  is_key_file_name name && (to_uint32 (strtoul16 name) =? id_of_digits d3 d2 d1 d0).

(** ** Notions used in the statements *)

(** The entries the loop of kmgr_get_cryptokeys takes up, and the
    identifier it parses from one. *)
Definition key_entry (e : string * list Z) : bool := is_key_file_name (fst e).
Definition key_files (d : directory) : directory := List.filter key_entry d.
Definition entry_id (e : string * list Z) : Z := to_uint32 (strtoul16 (fst e)).

(** Some entry of the listing is a key file of identifier [i]. *)
Definition listed (entries : directory) (i : Z) : bool :=
  existsb (fun e => key_entry e && (entry_id e =? i)) entries.

(** The errors the specification calls Corrupt: identifier out of range,
    too many key files, short read. *)
Definition is_corrupt (e : error) : bool :=
  match e with
  | invalid_key_identifier _ | too_many_keys | could_not_read_file _ _ _ => true
  | _ => false
  end.

Section Notions.

Variable N : Z.
Variable sz : nat.

(** A file from which [read] gets [sizeof(CryptoKey)] bytes. *)
Definition full_size (bytes : list Z) : bool := Nat.leb sz (length bytes).

(** What slot [i] holds after a load of [d]: the bytes read from the file
    of identifier [i], or zeros when there is none. *)
Definition key_of (d : directory) (i : Z) : CryptoKey :=
  match dir_file d (CryptoKeyFileName i) with
  | Some bytes => firstn sz bytes
  | None => zero_key sz
  end.

(** An entry the loop can take up: identifier in range, file of full size. *)
Definition entry_ok (d : directory) (e : string * list Z) : bool :=
  (entry_id e <? N) &&
  match dir_file d (fst e) with
  | Some bytes => full_size bytes
  | None => false
  end.

(** A directory that kmgr_get_cryptokeys loads without error. *)
Definition loadable (d : directory) : bool :=
  forallb (entry_ok d) (key_files d) && (Z.of_nat (length (key_files d)) <=? N).

End Notions.

(** A directory listing with two key files and three other entries. *)
Definition sample_dir : directory :=
  [ (".", []); ("0001", [5; 6; 7; 8; 9]); ("xyz", [1]); ("0000", [1; 2; 3; 4]); ("..", []) ].

(** ** The recovery table of the specification *)

Section SpecRecovery.

Variable N : Z.
Variable sz : nat.

(** "Valid here means the file exists, is exactly sizeof(WrappedKey) bytes,
    and the id parses in range." *)
Definition valid_key_file (e : string * list Z) : bool :=
  key_entry e && (entry_id e <? N) && Nat.eqb (length (snd e)) sz.

(** The table of §4.5.4 read as a function on the two directories: TMP
    absent, nothing to do; only TMP present, rename it; both present, swap
    when TMP holds exactly N valid files and drop TMP otherwise. *)
Definition spec_recover_rotation (fs : filesystem) : filesystem :=
  match pg_cryptokeys fs, pg_cryptokeys_tmp fs with
  | _, None => fs
  | None, Some t => mk_fs (Some t) None
  | Some p, Some t =>
      if Z.of_nat (length (List.filter valid_key_file t)) =? N
      then mk_fs (Some t) None
      else mk_fs (Some p) None
  end.

End SpecRecovery.

(** A key store whose staging directory holds a key file cut short, as a
    crash between creating the file and writing it leaves it. *)
Definition truncated_tmp : filesystem :=
  mk_fs (Some [("0000", [1; 2; 3; 4])]) (Some [("0000", [])]).

(** ** The rotation protocol of the specification and its crash points *)

(** C1 speaks of the crash points of "the rotation protocol (after any
    prefix of its steps: writing files into TMP_DIR, removing PRIMARY_DIR,
    renaming TMP_DIR to PRIMARY_DIR)".  That protocol is the one of the
    specification (§4.5.3, steps 5 to 7, with the operations of §4.2).  It
    is not what the program does: pg_rotate_cluster_passphrase and
    KmgrSaveCryptoKeys are embedded above as the sources have them, with
    empty bodies, and perform none of these steps.  The definitions named
    [spec_...] below only give the key stores on which the claim asks what
    recoverIncompleteRotation does.

    [save_all(TMP_DIR, new_wrapped)] makes the staging directory and, for
    each identifier, creates the file and writes the record, "a single
    write() of sizeof(WrappedKey)" being "the commit point";
    [remove_tree(PRIMARY_DIR)] unlinks the entries of the primary directory
    and removes it; [rename_dir(TMP_DIR, PRIMARY_DIR)] puts the staging
    directory in its place.  A crash can fall after any of these steps,
    also between the creation of a file and its write. *)
Inductive spec_rotation_step : Type :=
| make_tmp_dir
| create_key_file (id : Z)
| write_key_file (id : Z) (wrapped : CryptoKey)
| unlink_primary_entry
| remove_primary_dir
| rename_tmp_dir.

(** The single write to a file that exists: its bytes are replaced. *)
Fixpoint write_file (d : directory) (name : string) (bytes : list Z) : directory :=
  match d with
  | [] => []
  | (n, old) :: rest =>
      if String.eqb n name then (n, bytes) :: rest
      else (n, old) :: write_file rest name bytes
  end.

(** What one step of the protocol does to the two directories. *)
Definition spec_run_step (fs : filesystem) (s : spec_rotation_step) : filesystem :=
  match s with
  | make_tmp_dir =>
      match pg_cryptokeys_tmp fs with
      | None => fs_set fs KMGR_TMP_DIR (Some [])
      | Some _ => fs
      end
  | create_key_file id =>
      match pg_cryptokeys_tmp fs with
      | Some t => fs_set fs KMGR_TMP_DIR (Some (t ++ [(CryptoKeyFileName id, [])])%list)
      | None => fs
      end
  | write_key_file id wrapped =>
      match pg_cryptokeys_tmp fs with
      | Some t => fs_set fs KMGR_TMP_DIR (Some (write_file t (CryptoKeyFileName id) wrapped))
      | None => fs
      end
  | unlink_primary_entry =>
      match pg_cryptokeys fs with
      | Some (_ :: p) => fs_set fs KMGR_DIR (Some p)
      | _ => fs
      end
  | remove_primary_dir => rmtree fs KMGR_DIR
  | rename_tmp_dir =>
      match rename fs KMGR_TMP_DIR KMGR_DIR with
      | OK fs' => fs'
      | ERROR _ => fs
      end
  end.

(** The steps of [save_all] on the files: for each identifier from [id]
    on, the creation of the file, then its write. *)
Fixpoint spec_save_steps (id : Z) (wrapped : list CryptoKey) : list spec_rotation_step :=
  match wrapped with
  | [] => []
  | w :: rest => create_key_file id :: write_key_file id w :: spec_save_steps (id + 1) rest
  end.

(** The steps of a rotation that starts with [old_dir] as the primary
    directory and writes the keys [new_wrapped]. *)
Definition spec_rotation_steps (old_dir : directory) (new_wrapped : list CryptoKey)
    : list spec_rotation_step :=
  (make_tmp_dir :: spec_save_steps 0 new_wrapped ++
   repeat unlink_primary_entry (length old_dir) ++
   [remove_primary_dir; rename_tmp_dir])%list.

(** The key store found at restart when the rotation stopped after its
    first [k] steps. *)
Definition spec_crash_state (old_dir : directory) (new_wrapped : list CryptoKey) (k : nat)
    : filesystem :=
  fold_left spec_run_step (firstn k (spec_rotation_steps old_dir new_wrapped))
    (mk_fs (Some old_dir) None).

(** The staging directory holds a key file from which [read] gets fewer
    than [sizeof(CryptoKey)] bytes: a file created and not yet written. *)
Definition unwritten_key_file (sz : nat) (fs : filesystem) : bool :=
  match pg_cryptokeys_tmp fs with
  | None => false
  | Some t => existsb (fun e => negb (full_size sz (snd e))) (key_files t)
  end.

(** The directory that holds the keys [wrapped] under the identifiers
    [id], [id + 1], ... *)
Fixpoint key_dir_from (id : Z) (wrapped : list CryptoKey) : directory :=
  match wrapped with
  | [] => []
  | w :: rest => (CryptoKeyFileName id, w) :: key_dir_from (id + 1) rest
  end.

Definition key_dir (wrapped : list CryptoKey) : directory := key_dir_from 0 wrapped.

(** Every key of a set unwraps under a context: kmgr_verify_passphrase
    returns true with it. *)
Definition unwraps_all {aead : Aead} (ctx : PgAeadCtx) (keys : list CryptoKey) : bool :=
  forallb (fun key_in => fst (pg_aead_decrypt ctx key_in)) keys.

(** ** A small AEAD to run the model on *)

(** Keys of four bytes [klen; b1; b2; b3].  Wrapping under the context
    [ctx] stores the context as tag and the two data bytes xored with it;
    unwrapping checks the tag and fails, writing nothing, when it differs. *)
Definition toy_encrypt (ctx : Z) (key_in : CryptoKey) : bool * (CryptoKey -> CryptoKey) :=
  match key_in with
  | [klen; a; b; _] => (true, fun _ => [klen + 1; ctx; Z.lxor a ctx; Z.lxor b ctx])
  | _ => (false, fun out => out)
  end.

Definition toy_decrypt (ctx : Z) (key_in : CryptoKey) : bool * (CryptoKey -> CryptoKey) :=
  match key_in with
  | [klen; tag; a; b] =>
      if tag =? ctx
      then (true, fun _ => [klen - 1; Z.lxor a ctx; Z.lxor b ctx; 0])
      else (false, fun out => out)
  | _ => (false, fun out => out)
  end.

#[local] Instance toy_aead : Aead := {
  PgAeadCtx := Z;
  pg_create_aead_ctx := fun enckey mackey => hd 0 enckey;
  pg_aead_encrypt := toy_encrypt;
  pg_aead_decrypt := toy_decrypt
}.

(** Two data keys, wrapped under the context 7 and under the context 9. *)
Definition sample_deks : list CryptoKey := [[2; 10; 20; 0]; [2; 30; 40; 0]].

Definition wrapped_under (ctx : Z) (deks : list CryptoKey) : list CryptoKey :=
  map (fun k => snd (toy_encrypt ctx k) []) deks.

(** ** The macro StrNCpy and the command as the specification words it *)

(** A store of the characters [cs] from offset [dst] on. *)
Definition poke_all (buf : list ascii) (dst : nat) (cs : list ascii) : result (list ascii) :=
  if Nat.leb (dst + length cs) (length buf)
  then OK (firstn dst buf ++ cs ++ skipn (dst + length cs) buf)%list
  else ERROR buffer_overrun.

(** [strncpy(buf + dst, src, n)]: exactly [n] characters are written, the
    characters of [src] followed by NULs when [src] is shorter. *)
Definition strncpy (buf : list ascii) (dst : nat) (src : string) (n : nat)
    : result (list ascii) :=
  poke_all buf dst (firstn n (list_ascii_of_string src ++ repeat NUL n)%list).

(** The macro StrNCpy as c.h of PostgreSQL defines it (c.h is not among
    the sources): [strncpy(dst, src, len)] followed by
    [dst[len-1] = '\0'] when [len > 0], so that at most [len - 1]
    characters of [src] are kept. *)
Definition c_StrNCpy (buf : list ascii) (dst : nat) (src : string) (len : nat)
    : result (list ascii) :=
  if Nat.ltb 0 len then
    match strncpy buf dst src len with
    | ERROR e => ERROR e
    | OK buf' => poke buf' (dst + len - 1) NUL
    end
  else OK buf.

(** The substitution in the words of the specification (§4.3): [%p] is
    replaced by the prompt, [%%] emits [%], any other [%X] emits [X], all
    other characters are copied. *)
Fixpoint spec_substitute (p : string) : string :=
  match p with
  | EmptyString => EmptyString
  | String c rest =>
      if Ascii.eqb c "%" then
        match rest with
        | String "p" rest' => KMGR_PROMPT_MSG ++ spec_substitute rest'
        | String x rest' => String x (spec_substitute rest')
        | EmptyString => String c EmptyString
        end
      else String c (spec_substitute rest)
  end.

(** "Truncates at command buffer capacity": the buffer holds
    [MAXPGPATH - 1] characters and the terminator. *)
Definition spec_command (MAXPGPATH : nat) (p : string) : string :=
  substring 0 (MAXPGPATH - 1) (spec_substitute p).

(** The template has a [%p] where the loop looks for one. *)
Fixpoint has_prompt_token (p : string) : bool :=
  match p with
  | EmptyString => false
  | String c rest =>
      if Ascii.eqb c "%" then
        match rest with
        | String "p" _ => true
        | String "%" rest' => has_prompt_token rest'
        | _ => has_prompt_token rest
        end
      else has_prompt_token rest
  end.

(** What the loop emits for a template without [%p]: [%%] gives one [%],
    any other [%] is kept and the character after it is handled as any
    other character. *)
Fixpoint literal_text (p : string) : list ascii :=
  match p with
  | EmptyString => []
  | String c rest =>
      if Ascii.eqb c "%" then
        match rest with
        | String "%" rest' => "%"%char :: literal_text rest'
        | _ => "%"%char :: literal_text rest
        end
      else c :: literal_text rest
  end.

(** No NUL among the characters: the string is a C string. *)
Definition no_NUL (cs : list ascii) : bool :=
  forallb (fun c => negb (Ascii.eqb c NUL)) cs.

(** The characters emitted one by one through [put_char]. *)
Definition put_chars (MAXPGPATH : nat) (cs : list ascii) (command : list ascii) (dp : nat)
    : list ascii * nat :=
  fold_left (fun st c => put_char MAXPGPATH (fst st) (snd st) c) cs (command, dp).

(** ** Notions for the startup *)

(** Whether a wrapped key unwraps under a context, and what the call
    leaves in the output slot. *)
Definition unwraps {aead : Aead} (ctx : PgAeadCtx) (key_in : CryptoKey) : bool :=
  fst (pg_aead_decrypt ctx key_in).

Definition unwrapped {aead : Aead} (ctx : PgAeadCtx) (key_in key_out : CryptoKey) : CryptoKey :=
  snd (pg_aead_decrypt ctx key_in) key_out.

(** A passphrase command that prints a passphrase and exits with 0. *)
Definition sample_pipe (command : string) : pipe :=
  mk_pipe true [115; 101; 99; 114; 101; 116; 45; 112; 119; 10] false 0.

(** A state before startup: the first key file is wrapped under the
    context 7, the second one under the context 9, as after the second
    file was replaced or damaged; the cache is zeroed. *)
Definition second_key_damaged : state :=
  mk_state
    (mk_fs (Some [("0000", [3; 7; 13; 19]); ("0001", [3; 9; 23; 33])]) None)
    [[0; 0; 0; 0]; [0; 0; 0; 0]]
    [].

(** A state before startup with both key files wrapped under the
    context 7. *)
Definition both_keys_sound : state :=
  mk_state
    (mk_fs (Some (key_dir (wrapped_under 7 sample_deks))) None)
    [[0; 0; 0; 0]; [0; 0; 0; 0]]
    [].


(** A state after a startup under the context 7: both key files wrapped
    under it, the cache holding the two data keys. *)
Definition loaded_under_old : state :=
  mk_state
    (mk_fs (Some (key_dir (wrapped_under 7 sample_deks))) None)
    sample_deks
    ["echo secret-pw"].

(** ** Further notions *)

(** Two files that a read of [sz] bytes cannot tell apart: the same bytes,
    or two files of at least [sz] bytes with the same first [sz] bytes. *)
Definition same_key_bytes (sz : nat) (b b' : list Z) : Prop :=
  b = b' \/
  ((sz <= length b)%nat /\ (sz <= length b')%nat /\ firstn sz b = firstn sz b').

(** Two listings with the same names in the same order and files that a
    read of [sz] bytes cannot tell apart. *)
Definition same_key_files (sz : nat) (d d' : directory) : Prop :=
  Forall2 (fun e e' => fst e = fst e' /\ same_key_bytes sz (snd e) (snd e')) d d'.

(** A passphrase command that prints nothing and exits with 0. *)
Definition silent_pipe (command : string) : pipe := mk_pipe true [] false 0.

(** StrNCpy keeps the size of the array it writes into. *)
Definition keeps_length (StrNCpy : list ascii -> nat -> string -> nat -> result (list ascii))
    : Prop :=
  forall buf dst src len buf', StrNCpy buf dst src len = OK buf' -> length buf' = length buf.

(** StrNCpy as c.h describes it, "at most N-1 bytes of the source string
    will be kept" and the result is terminated: a call that stays inside
    the array, with a source of at least [len - 1] characters, succeeds,
    keeps what is before [dst], and puts there the first [len - 1]
    characters of the source and a NUL. *)
Definition terminates_copy
    (StrNCpy : list ascii -> nat -> string -> nat -> result (list ascii)) : Prop :=
  forall buf dst src len,
    (0 < len)%nat -> (dst + len <= length buf)%nat -> (len - 1 <= String.length src)%nat ->
    exists buf',
      StrNCpy buf dst src len = OK buf' /\
      length buf' = length buf /\
      firstn (dst + len) buf' =
        (firstn dst buf ++ firstn (len - 1) (list_ascii_of_string src) ++ [NUL])%list.

(** A template part without any [%]. *)
Fixpoint plain (p : string) : bool :=
  match p with
  | EmptyString => true
  | String c rest => negb (Ascii.eqb c "%") && plain rest
  end.

(** * Properties *)

(** Unfolding steps for the functions of the model that the sections below
    abbreviate at their parameters. *)
Ltac unfold_recover := unfold recoverIncompleteRotation.
Ltac unfold_load := unfold kmgr_get_cryptokeys.
Ltac unfold_loadable := unfold loadable.
Ltac unfold_startup := unfold InitializeKmgr.
Ltac unfold_put_chars := unfold put_chars.
Ltac unfold_put_char := unfold put_char.
Ltac unfold_build := unfold build_command, build_command_buffer.
Ltac unfold_endp := unfold endp in *.
Ltac step_substitute := cbn [has_prompt_token literal_text substitute] in *.

(** ** File names *)

Lemma strchr_In accept c : strchr accept c = true <-> In c (list_ascii_of_string accept).
Proof.
  induction accept as [|a rest IH]; simpl.
  - split; [discriminate | tauto].
  - destruct (Ascii.eqb a c) eqn:E.
    + apply Ascii.eqb_eq in E. tauto.
    + apply Ascii.eqb_neq in E. rewrite IH. split; [tauto | intros [H|H]; [congruence | exact H]].
Qed.

(** The names the loop takes up are those of four characters among
    0..9 and A..F. *)
Lemma is_key_file_name_iff s :
  is_key_file_name s = true <->
  exists a b c d, s = name_of a b c d /\
    In a upper_hex_chars /\ In b upper_hex_chars /\
    In c upper_hex_chars /\ In d upper_hex_chars.
Proof.
  unfold is_key_file_name, strlen, upper_hex_chars. split.
  - intros H. apply andb_true_iff in H as [Hl Hs].
    apply Nat.eqb_eq in Hl. apply Nat.eqb_eq in Hs.
    destruct s as [|a [|b [|c [|d [|e s]]]]]; simpl in Hl; try discriminate.
    exists a, b, c, d. split; [reflexivity|].
    cbn [strspn] in Hs.
    destruct (strchr _ a) eqn:Ea; [|discriminate].
    destruct (strchr _ b) eqn:Eb; [|discriminate].
    destruct (strchr _ c) eqn:Ec; [|discriminate].
    destruct (strchr _ d) eqn:Ed; [|discriminate].
    rewrite <- !strchr_In. auto.
  - intros (a & b & c & d & -> & Ha & Hb & Hc & Hd).
    apply strchr_In in Ha, Hb, Hc, Hd.
    unfold name_of. cbn [String.length strspn]. rewrite Ha, Hb, Hc, Hd. reflexivity.
Qed.

Lemma all_names_roundtrip :
  forallb (fun a => forallb (fun b => forallb (fun c => forallb (fun d =>
    name_roundtrip_ok a b c d) upper_hex_chars) upper_hex_chars) upper_hex_chars)
    upper_hex_chars = true.
Proof. vm_compute. reflexivity. Qed.

(** Formatting the parsed identifier gives the name back: the file that
    read_one_keyfile opens is the entry itself. *)
Lemma key_file_name_roundtrip s :
  is_key_file_name s = true ->
  CryptoKeyFileName (to_uint32 (strtoul16 s)) = s /\
  0 <= to_uint32 (strtoul16 s) < 65536.
Proof.
  intros H. apply is_key_file_name_iff in H as (a & b & c & d & -> & Ha & Hb & Hc & Hd).
  pose proof all_names_roundtrip as All.
  rewrite forallb_forall in All. specialize (All a Ha).
  rewrite forallb_forall in All. specialize (All b Hb).
  rewrite forallb_forall in All. specialize (All c Hc).
  rewrite forallb_forall in All. specialize (All d Hd).
  unfold name_roundtrip_ok in All.
  apply andb_true_iff in All as [All H3]. apply andb_true_iff in All as [H1 H2].
  apply String.eqb_eq in H1. apply Z.leb_le in H2. apply Z.ltb_lt in H3. auto.
Qed.

Lemma all_ids_roundtrip :
  forallb (fun d3 => forallb (fun d2 => forallb (fun d1 => forallb (fun d0 =>
    id_roundtrip_ok d3 d2 d1 d0) hex_values) hex_values) hex_values) hex_values = true.
Proof. vm_compute. reflexivity. Qed.

Lemma In_hex_values d : 0 <= d < 16 -> In d hex_values.
Proof.
  intros H. unfold hex_values. apply in_map_iff. exists (Z.to_nat d).
  split; [lia | apply in_seq; lia].
Qed.

(** Every identifier below 16^4 is written as a name the loop takes up and
    parses back to it. *)
Lemma key_file_id_roundtrip id :
  0 <= id < 65536 ->
  is_key_file_name (CryptoKeyFileName id) = true /\
  to_uint32 (strtoul16 (CryptoKeyFileName id)) = id.
Proof.
  intros Hid.
  set (q1 := id / 16). set (q2 := q1 / 16).
  set (d3 := q2 / 16). set (d2 := q2 mod 16).
  set (d1 := q1 mod 16). set (d0 := id mod 16).
  pose proof (Z.div_mod id 16 ltac:(lia)) as E0.
  pose proof (Z.div_mod q1 16 ltac:(lia)) as E1.
  pose proof (Z.div_mod q2 16 ltac:(lia)) as E2.
  pose proof (Z.mod_pos_bound id 16 ltac:(lia)) as B0.
  pose proof (Z.mod_pos_bound q1 16 ltac:(lia)) as B1.
  pose proof (Z.mod_pos_bound q2 16 ltac:(lia)) as B2.
  fold q1 in E0. fold q2 in E1. fold d0 in E0, B0. fold d1 in E1, B1.
  fold d2 in E2, B2. fold d3 in E2.
  assert (Hval : id = id_of_digits d3 d2 d1 d0) by (unfold id_of_digits; lia).
  assert (H3 : In d3 hex_values) by (apply In_hex_values; lia).
  assert (H2 : In d2 hex_values) by (apply In_hex_values; lia).
  assert (H1 : In d1 hex_values) by (apply In_hex_values; lia).
  assert (H0 : In d0 hex_values) by (apply In_hex_values; lia).
  pose proof all_ids_roundtrip as All.
  rewrite forallb_forall in All. specialize (All d3 H3).
  rewrite forallb_forall in All. specialize (All d2 H2).
  rewrite forallb_forall in All. specialize (All d1 H1).
  rewrite forallb_forall in All. specialize (All d0 H0).
  unfold id_roundtrip_ok in All. rewrite <- Hval in All.
  apply andb_true_iff in All as [Ha Hb]. apply Z.eqb_eq in Hb. auto.
Qed.

(** ** The key store *)

Section KeyStoreFacts.
Variable N : Z.
Variable sz : nat.

Local Abbreviation full_size := (full_size sz).
Local Abbreviation key_of := (key_of sz).
Local Abbreviation entry_ok := (entry_ok N sz).
Local Abbreviation loadable := (loadable N sz).

Lemma dir_file_key_files d name :
  is_key_file_name name = true -> dir_file (key_files d) name = dir_file d name.
Proof.
  intros Hn. induction d as [|[n b] d IH]; simpl; [reflexivity|].
  unfold key_entry at 1. simpl.
  destruct (String.eqb n name) eqn:E.
  - apply String.eqb_eq in E. subst n. rewrite Hn. simpl. rewrite String.eqb_refl. reflexivity.
  - destruct (is_key_file_name n); simpl; [rewrite E|]; exact IH.
Qed.

Lemma read_one_keyfile_key_files p d id :
  0 <= id < 65536 ->
  read_one_keyfile sz p (key_files d) id = read_one_keyfile sz p d id.
Proof.
  intros H. unfold read_one_keyfile.
  rewrite dir_file_key_files; [reflexivity|]. apply key_file_id_roundtrip, H.
Qed.

Lemma read_entries_dir_ext p d d' entries keys n :
  (forall id, 0 <= id < 65536 -> read_one_keyfile sz p d id = read_one_keyfile sz p d' id) ->
  read_entries N sz p d entries keys n = read_entries N sz p d' entries keys n.
Proof.
  intros Hd. revert keys n. induction entries as [|[name b] entries IH]; intros; simpl; [reflexivity|].
  destruct (is_key_file_name name) eqn:Hn; [|apply IH].
  destruct (key_file_name_roundtrip _ Hn) as [_ Hr].
  rewrite Hd by exact Hr.
  repeat (match goal with |- context [if ?b then _ else _] => destruct b end; try reflexivity).
  destruct (read_one_keyfile _ _ _ _); [apply IH | reflexivity].
Qed.

Lemma read_entries_key_files p d entries keys n :
  read_entries N sz p d (key_files entries) keys n = read_entries N sz p d entries keys n.
Proof.
  revert keys n. induction entries as [|[name b] entries IH]; intros; simpl; [reflexivity|].
  unfold key_entry at 1. simpl.
  destruct (is_key_file_name name) eqn:Hn; [|apply IH].
  simpl. rewrite Hn.
  repeat (match goal with |- context [if ?b then _ else _] => destruct b end; try reflexivity).
  destruct (read_one_keyfile _ _ _ _); [apply IH | reflexivity].
Qed.


Lemma key_files_cons_key name b rest :
  is_key_file_name name = true -> key_files ((name, b) :: rest) = (name, b) :: key_files rest.
Proof. intros H. unfold key_files. simpl. unfold key_entry at 1. simpl. rewrite H. reflexivity. Qed.

Lemma key_files_cons_other name b rest :
  is_key_file_name name = false -> key_files ((name, b) :: rest) = key_files rest.
Proof. intros H. unfold key_files. simpl. unfold key_entry at 1. simpl. rewrite H. reflexivity. Qed.

Lemma listed_cons_key name b rest i :
  is_key_file_name name = true ->
  listed ((name, b) :: rest) i = (to_uint32 (strtoul16 name) =? i) || listed rest i.
Proof. intros H. unfold listed. simpl. unfold key_entry at 1. unfold entry_id at 1. simpl. rewrite H. reflexivity. Qed.

Lemma listed_cons_other name b rest i :
  is_key_file_name name = false -> listed ((name, b) :: rest) i = listed rest i.
Proof. intros H. unfold listed. simpl. unfold key_entry at 1. simpl. rewrite H. reflexivity. Qed.

Lemma read_one_keyfile_OK p d id k :
  read_one_keyfile sz p d id = OK k ->
  exists bytes, dir_file d (CryptoKeyFileName id) = Some bytes /\
    full_size bytes = true /\ k = firstn sz bytes.
Proof.
  unfold read_one_keyfile, full_size. destruct (dir_file d _) as [bytes|]; [|discriminate].
  destruct (Nat.eqb _ _) eqn:E; [|discriminate]. intros [= <-].
  apply Nat.eqb_eq in E. exists bytes. split; [reflexivity|]. split; [|reflexivity].
  apply Nat.leb_le. lia.
Qed.

(** One round of the loop on an entry that is taken up. *)
Lemma read_entries_cons_key p d name b rest keys n :
  is_key_file_name name = true ->
  read_entries N sz p d ((name, b) :: rest) keys n =
    let id := to_uint32 (strtoul16 name) in
    if id >=? N then ERROR (invalid_key_identifier id)
    else if n >=? N then ERROR too_many_keys
    else match read_one_keyfile sz p d id with
         | ERROR e => ERROR e
         | OK k => read_entries N sz p d rest (<[Z.to_nat id := k]> keys) (n + 1)
         end.
Proof.
  intros Hn. simpl. rewrite Hn.
  destruct (key_file_name_roundtrip _ Hn) as [_ [Hlo _]].
  destruct (_ <? 0) eqn:E; [apply Z.ltb_lt in E; lia|]. reflexivity.
Qed.

Lemma read_entries_cons_other p d name b rest keys n :
  is_key_file_name name = false ->
  read_entries N sz p d ((name, b) :: rest) keys n = read_entries N sz p d rest keys n.
Proof. intros Hn. simpl. rewrite Hn. reflexivity. Qed.

Lemma read_entries_OK p d entries keys n keys' n' :
  read_entries N sz p d entries keys n = OK (keys', n') ->
  n' = n + Z.of_nat (length (key_files entries)) /\
  length keys' = length keys /\
  (key_files entries <> [] -> n' <= N) /\
  Forall (fun e => key_entry e = true -> 0 <= entry_id e < N /\
            exists bytes, dir_file d (fst e) = Some bytes /\ full_size bytes = true)
         entries.
Proof.
  revert keys n. induction entries as [|[name b] rest IH]; intros keys n H.
  - simpl in H. injection H as <- <-. simpl. split; [lia|]. split; [reflexivity|]. split; [congruence | constructor].
  - destruct (is_key_file_name name) eqn:Hn.
    + rewrite read_entries_cons_key in H by exact Hn. cbv zeta in H.
      destruct (key_file_name_roundtrip _ Hn) as [Hrt [Hlo Hhi]].
      destruct (_ >=? N) eqn:E1 in H; [discriminate|].
      destruct (n >=? N) eqn:E2; [discriminate|].
      destruct (read_one_keyfile _ _ _ _) as [k|] eqn:Hr; [|discriminate].
      apply IH in H as (Hc & Hl & Hb & Hall).
      apply read_one_keyfile_OK in Hr as (bytes & Hf & Hfull & ->).
      rewrite Hrt in Hf.
      rewrite Z.geb_leb in E1, E2. apply Z.leb_gt in E1, E2.
      rewrite key_files_cons_key by exact Hn. cbn [length].
      rewrite length_insert in Hl.
      split; [lia|]. split; [exact Hl|]. split.
      * intros _. destruct (key_files rest) eqn:Ef; [simpl in Hc; lia | apply Hb; congruence].
      * constructor; [|exact Hall]. intros _. unfold entry_id. simpl. split; [lia|].
        exists bytes. auto.
    + rewrite read_entries_cons_other in H by exact Hn.
      apply IH in H as (Hc & Hl & Hb & Hall).
      rewrite key_files_cons_other by exact Hn.
      split; [exact Hc|]. split; [exact Hl|]. split; [exact Hb|].
      constructor; [|exact Hall]. unfold key_entry. simpl. congruence.
Qed.

Lemma read_entries_ERROR_corrupt p d entries keys n e :
  (forall x, In x entries -> key_entry x = true -> dir_file d (fst x) <> None) ->
  read_entries N sz p d entries keys n = ERROR e -> is_corrupt e = true.
Proof.
  revert keys n. induction entries as [|[name b] rest IH]; intros keys n Hd H.
  - discriminate.
  - destruct (is_key_file_name name) eqn:Hn.
    + rewrite read_entries_cons_key in H by exact Hn. cbv zeta in H.
      destruct (key_file_name_roundtrip _ Hn) as [Hrt _].
      destruct (_ >=? N) in H; [injection H as <-; reflexivity|].
      destruct (n >=? N); [injection H as <-; reflexivity|].
      unfold read_one_keyfile in H. rewrite Hrt in H.
      specialize (Hd (name, b) (or_introl eq_refl) Hn) as Hf. simpl in Hf.
      destruct (dir_file d name) as [bytes|]; [|congruence].
      destruct (Nat.eqb _ _).
      * eapply IH; [|exact H]. intros x Hx. apply Hd. right. exact Hx.
      * injection H as <-. reflexivity.
    + rewrite read_entries_cons_other in H by exact Hn.
      eapply IH; [|exact H]. intros x Hx. apply Hd. right. exact Hx.
Qed.

Lemma read_entries_is_OK p d entries keys n :
  n <= N ->
  is_OK (read_entries N sz p d entries keys n) =
  forallb (entry_ok d) (key_files entries) &&
  (n + Z.of_nat (length (key_files entries)) <=? N).
Proof.
  revert keys n. induction entries as [|[name b] rest IH]; intros keys n Hle.
  - simpl. symmetry. apply Z.leb_le. lia.
  - destruct (is_key_file_name name) eqn:Hn.
    + rewrite read_entries_cons_key by exact Hn. cbv zeta.
      destruct (key_file_name_roundtrip _ Hn) as [Hrt [Hlo Hhi]].
      rewrite key_files_cons_key by exact Hn. cbn [forallb length].
      unfold entry_ok at 1. unfold entry_id. cbn [fst].
      destruct (_ >=? N) eqn:E1.
      { apply Z.geb_le in E1. replace (_ <? N) with false by (symmetry; apply Z.ltb_ge; lia).
        reflexivity. }
      rewrite Z.geb_leb in E1. apply Z.leb_gt in E1.
      replace (_ <? N) with true by (symmetry; apply Z.ltb_lt; lia). simpl.
      destruct (n >=? N) eqn:E2.
      { apply Z.geb_le in E2. simpl.
        replace (_ <=? N) with false by (symmetry; apply Z.leb_gt; lia).
        rewrite andb_false_r. reflexivity. }
      rewrite Z.geb_leb in E2. apply Z.leb_gt in E2.
      unfold read_one_keyfile. rewrite Hrt.
      destruct (dir_file d name) as [bytes|]; [|reflexivity].
      unfold full_size. destruct (Nat.leb sz (length bytes)) eqn:Ef.
      * apply Nat.leb_le in Ef. rewrite Nat.min_r by exact Ef. rewrite Nat.eqb_refl.
        rewrite IH by lia. simpl. f_equal. f_equal. lia.
      * apply Nat.leb_gt in Ef. rewrite Nat.min_l by lia.
        destruct (Nat.eqb _ _) eqn:E; [apply Nat.eqb_eq in E; lia | reflexivity].
    + rewrite read_entries_cons_other by exact Hn.
      rewrite key_files_cons_other by exact Hn. apply IH, Hle.
Qed.

Lemma read_entries_slots p d entries keys n keys' n' :
  read_entries N sz p d entries keys n = OK (keys', n') ->
  length keys = Z.to_nat N ->
  forall i, 0 <= i ->
    keys' !! Z.to_nat i =
      if listed entries i then Some (key_of d i) else keys !! Z.to_nat i.
Proof.
  revert keys n. induction entries as [|[name b] rest IH]; intros keys n H Hlen i Hi.
  - simpl in H. injection H as <- <-. reflexivity.
  - destruct (is_key_file_name name) eqn:Hn.
    + rewrite read_entries_cons_key in H by exact Hn. cbv zeta in H.
      destruct (key_file_name_roundtrip _ Hn) as [Hrt [Hlo Hhi]].
      destruct (_ >=? N) eqn:E1 in H; [discriminate|].
      rewrite Z.geb_leb in E1. apply Z.leb_gt in E1.
      destruct (n >=? N) eqn:E2; [discriminate|].
      destruct (read_one_keyfile _ _ _ _) as [k|] eqn:Hr; [|discriminate].
      apply read_one_keyfile_OK in Hr as (bytes & Hf & Hfull & ->).
      rewrite (IH _ _ H) by (rewrite ?length_insert; assumption).
      rewrite listed_cons_key by exact Hn.
      destruct (listed rest i); [rewrite orb_true_r; reflexivity|]. rewrite orb_false_r.
      destruct (_ =? i) eqn:E.
      * apply Z.eqb_eq in E. rewrite E. rewrite list_lookup_insert_eq by lia.
        unfold key_of. rewrite <- E. rewrite Hf. reflexivity.
      * apply Z.eqb_neq in E. apply list_lookup_insert_ne. lia.
    + rewrite read_entries_cons_other in H by exact Hn.
      rewrite (IH _ _ H) by assumption.
      rewrite listed_cons_other by exact Hn. reflexivity.
Qed.

Lemma dir_file_In d name bytes :
  dir_file d name = Some bytes -> In (name, bytes) d.
Proof.
  induction d as [|[n b] d IH]; simpl; [discriminate|].
  destruct (String.eqb n name) eqn:E.
  - apply String.eqb_eq in E. intros [= <-]. left. congruence.
  - intros H. right. apply IH, H.
Qed.

Lemma In_dir_file d name bytes :
  In (name, bytes) d -> dir_file d name <> None.
Proof.
  induction d as [|[n b] d IH]; simpl; [tauto|].
  intros [H|H].
  - injection H as -> ->. rewrite String.eqb_refl. discriminate.
  - destruct (String.eqb n name); [discriminate | apply IH, H].
Qed.

Lemma listed_iff d i :
  0 <= i < 65536 ->
  listed d i = true <-> dir_file d (CryptoKeyFileName i) <> None.
Proof.
  intros Hi. destruct (key_file_id_roundtrip i Hi) as [Hk Hid].
  unfold listed. rewrite existsb_exists. split.
  - intros ([name b] & Hin & H). apply andb_true_iff in H as [H1 H2].
    apply Z.eqb_eq in H2. unfold key_entry, entry_id in *. simpl in *.
    destruct (key_file_name_roundtrip _ H1) as [Hrt _]. rewrite H2 in Hrt.
    rewrite Hrt. eapply In_dir_file, Hin.
  - intros H. destruct (dir_file d _) as [bytes|] eqn:E; [|congruence].
    apply dir_file_In in E. exists (CryptoKeyFileName i, bytes). split; [exact E|].
    unfold key_entry, entry_id. simpl. rewrite Hk, Hid, Z.eqb_refl. reflexivity.
Qed.

Lemma lookup_repeat {A} (x : A) (n i : nat) :
  (i < n)%nat -> repeat x n !! i = Some x.
Proof.
  revert i. induction n as [|n IH]; intros i H; [lia|].
  destruct i as [|i]; simpl; [reflexivity | apply IH; lia].
Qed.

Lemma zero_keys_lookup i :
  0 <= i < N -> zero_keys N sz !! Z.to_nat i = Some (zero_key sz).
Proof.
  intros H. unfold zero_keys. apply lookup_repeat. lia.
Qed.

Lemma NoDup_dir_file d name bytes :
  List.NoDup (map fst d) -> In (name, bytes) d -> dir_file d name = Some bytes.
Proof.
  induction d as [|[n b] d IH]; simpl; [tauto|].
  intros Hnd [H|H].
  - injection H as -> ->. rewrite String.eqb_refl. reflexivity.
  - apply List.NoDup_cons_iff in Hnd as [Hnot Hnd].
    destruct (String.eqb n name) eqn:E.
    + apply String.eqb_eq in E. subst n. exfalso. apply Hnot.
      apply in_map_iff. exists (name, bytes). auto.
    + apply IH; assumption.
Qed.

Lemma dir_file_Permutation d d' name :
  List.NoDup (map fst d) -> Permutation d d' -> dir_file d name = dir_file d' name.
Proof.
  intros Hnd Hp.
  assert (Hnd' : List.NoDup (map fst d')).
  { eapply Permutation_NoDup; [apply Permutation_map, Hp | exact Hnd]. }
  destruct (dir_file d name) as [bytes|] eqn:E.
  - symmetry. apply NoDup_dir_file; [exact Hnd'|].
    eapply Permutation_in; [exact Hp|]. apply dir_file_In, E.
  - destruct (dir_file d' name) as [bytes|] eqn:E'; [|reflexivity].
    apply dir_file_In in E'. apply Permutation_sym in Hp.
    eapply Permutation_in in E'; [|exact Hp]. apply In_dir_file in E'. congruence.
Qed.

Lemma key_files_Permutation d d' :
  Permutation d d' -> Permutation (key_files d) (key_files d').
Proof.
  unfold key_files. induction 1; simpl.
  - constructor.
  - destruct (key_entry x); [constructor|]; assumption.
  - destruct (key_entry x), (key_entry y); try reflexivity; try constructor; reflexivity.
  - etransitivity; eassumption.
Qed.

Lemma forallb_Permutation {A} (f : A -> bool) l l' :
  Permutation l l' -> forallb f l = forallb f l'.
Proof.
  induction 1; simpl.
  - reflexivity.
  - congruence.
  - destruct (f x), (f y); reflexivity.
  - congruence.
Qed.

Lemma loadable_Permutation d d' :
  List.NoDup (map fst d) -> Permutation d d' -> loadable d = loadable d'.
Proof.
  intros Hnd Hp. unfold loadable.
  pose proof (key_files_Permutation _ _ Hp) as Hk.
  rewrite (Permutation_length Hk), (forallb_Permutation _ _ _ Hk).
  assert (E : forallb (entry_ok d) (key_files d') = forallb (entry_ok d') (key_files d')).
  { clear Hk. induction (key_files d') as [|e l IH]; simpl; [reflexivity|].
    rewrite IH. unfold entry_ok.
    rewrite (dir_file_Permutation _ _ _ Hnd Hp). reflexivity. }
  rewrite E. reflexivity.
Qed.

(** kmgr_get_cryptokeys on a directory. *)
Lemma kmgr_get_cryptokeys_dir fs p d :
  fs_dir fs p = Some d ->
  kmgr_get_cryptokeys N sz fs p = read_entries N sz p d d (zero_keys N sz) 0.
Proof. unfold kmgr_get_cryptokeys. intros ->. reflexivity. Qed.

Lemma fs_dir_set fs p d : fs_dir (fs_set fs p d) p = d.
Proof. destruct p; reflexivity. Qed.

Lemma load_is_OK p d :
  0 <= N -> is_OK (read_entries N sz p d d (zero_keys N sz) 0) = loadable d.
Proof. intros H. rewrite read_entries_is_OK by exact H. reflexivity. Qed.

Lemma load_slots p d keys n :
  N <= 65536 ->
  read_entries N sz p d d (zero_keys N sz) 0 = OK (keys, n) ->
  length keys = Z.to_nat N /\
  n = Z.of_nat (length (key_files d)) /\
  forall i, 0 <= i < N -> keys !! Z.to_nat i = Some (key_of d i).
Proof.
  intros HN H.
  pose proof (read_entries_OK _ _ _ _ _ _ _ H) as (Hc & Hl & _ & _).
  split; [rewrite Hl; unfold zero_keys; apply repeat_length|].
  split; [lia|].
  intros i Hi.
  rewrite (read_entries_slots _ _ _ _ _ _ _ H) by (unfold zero_keys; try apply repeat_length; lia).
  destruct (listed d i) eqn:E; [reflexivity|].
  rewrite zero_keys_lookup by exact Hi. f_equal.
  unfold key_of. destruct (dir_file d _) eqn:Ef; [|reflexivity].
  assert (listed d i = true) by (apply listed_iff; [lia | congruence]). congruence.
Qed.

Lemma load_Permutation p d d' keys n :
  0 <= N <= 65536 -> List.NoDup (map fst d) -> Permutation d d' ->
  read_entries N sz p d d (zero_keys N sz) 0 = OK (keys, n) ->
  read_entries N sz p d' d' (zero_keys N sz) 0 = OK (keys, n).
Proof.
  intros HN Hnd Hp H.
  assert (Hok : is_OK (read_entries N sz p d' d' (zero_keys N sz) 0) = true).
  { rewrite load_is_OK by lia. rewrite <- (loadable_Permutation _ _ Hnd Hp).
    rewrite <- (load_is_OK p) by lia. rewrite H. reflexivity. }
  destruct (read_entries N sz p d' d' _ 0) as [[keys' n']|] eqn:H'; [|discriminate].
  apply load_slots in H as (Hl & Hn & Hs); [|lia].
  apply load_slots in H' as (Hl' & Hn' & Hs'); [|lia].
  f_equal. f_equal.
  - apply list_eq. intros j.
    destruct (decide (j < Z.to_nat N)%nat) as [Hj|Hj].
    + specialize (Hs (Z.of_nat j) ltac:(lia)). specialize (Hs' (Z.of_nat j) ltac:(lia)).
      rewrite Nat2Z.id in Hs, Hs'. rewrite Hs, Hs'. f_equal. unfold key_of.
      rewrite (dir_file_Permutation _ _ _ Hnd Hp). reflexivity.
    + rewrite !lookup_ge_None_2 by lia. reflexivity.
  - rewrite Hn, Hn'. f_equal. apply Permutation_length, key_files_Permutation.
    apply Permutation_sym, Hp.
Qed.


Lemma load_key_files p d :
  read_entries N sz p (key_files d) (key_files d) (zero_keys N sz) 0 =
  read_entries N sz p d d (zero_keys N sz) 0.
Proof.
  rewrite (read_entries_dir_ext p (key_files d) d).
  - apply read_entries_key_files.
  - intros id Hid. apply read_one_keyfile_key_files, Hid.
Qed.

Lemma load_ERROR_corrupt p d e :
  read_entries N sz p d d (zero_keys N sz) 0 = ERROR e -> is_corrupt e = true.
Proof.
  apply read_entries_ERROR_corrupt. intros [name b] Hin _. eapply In_dir_file, Hin.
Qed.

Lemma load_not_OK_corrupt p d :
  is_OK (read_entries N sz p d d (zero_keys N sz) 0) = false ->
  exists e, read_entries N sz p d d (zero_keys N sz) 0 = ERROR e /\ is_corrupt e = true.
Proof.
  destruct (read_entries N sz p d d _ 0) as [r|e] eqn:H; [discriminate|].
  intros _. exists e. split; [reflexivity|]. eapply load_ERROR_corrupt, H.
Qed.

(** C5. The loop of kmgr_get_cryptokeys looks only at the entries whose name
    is four characters among 0..9 and A..F: entries of any other name can
    be dropped from the directory without changing the result; an entry of
    such a name whose identifier is KMGR_MAX_INTERNAL_KEYS or more, or more
    than KMGR_MAX_INTERNAL_KEYS such entries, give an error of the corrupt
    kind; and when every such entry has an identifier below
    KMGR_MAX_INTERNAL_KEYS and a file of full size, and there are at most
    KMGR_MAX_INTERNAL_KEYS of them, all are accepted: the call succeeds,
    counts them all, and holds the bytes read from each file in the slot of
    its identifier. *)
Theorem kmgr_get_cryptokeys_enumeration (fs : filesystem) (p : path) (d : directory) :
  0 <= N ->
  fs_dir fs p = Some d ->
  (forall name, is_key_file_name name = true <->
     exists a b c d, name = name_of a b c d /\
       In a upper_hex_chars /\ In b upper_hex_chars /\
       In c upper_hex_chars /\ In d upper_hex_chars) /\
  kmgr_get_cryptokeys N sz (fs_set fs p (Some (key_files d))) p =
    kmgr_get_cryptokeys N sz fs p /\
  (forall e, In e d -> key_entry e = true -> N <= entry_id e ->
     exists err, kmgr_get_cryptokeys N sz fs p = ERROR err /\ is_corrupt err = true) /\
  (N < Z.of_nat (length (key_files d)) ->
     exists err, kmgr_get_cryptokeys N sz fs p = ERROR err /\ is_corrupt err = true) /\
  (forallb (entry_ok d) (key_files d) = true ->
   Z.of_nat (length (key_files d)) <= N ->
     exists keys,
       kmgr_get_cryptokeys N sz fs p = OK (keys, Z.of_nat (length (key_files d))) /\
       forall e, In e (key_files d) ->
         exists bytes, dir_file d (fst e) = Some bytes /\
           keys !! Z.to_nat (entry_id e) = Some (firstn sz bytes)).
Proof.
  intros HN Hd.
  rewrite (kmgr_get_cryptokeys_dir fs p d Hd).
  rewrite (kmgr_get_cryptokeys_dir _ p (key_files d) (fs_dir_set _ _ _)).
  split; [exact is_key_file_name_iff|].
  split; [apply load_key_files|].
  split; [|split].
  - intros e Hin Hk Hid. apply load_not_OK_corrupt.
    destruct (read_entries N sz p d d _ 0) as [[keys n]|] eqn:H; [|reflexivity].
    apply read_entries_OK in H as (_ & _ & _ & Hall).
    rewrite Forall_forall in Hall. apply list_elem_of_In in Hin.
    destruct (Hall e Hin Hk) as [? _]. lia.
  - intros Hmany. apply load_not_OK_corrupt.
    destruct (read_entries N sz p d d _ 0) as [[keys n]|] eqn:H; [|reflexivity].
    apply read_entries_OK in H as (Hc & _ & Hb & _).
    assert (key_files d <> []) by (destruct (key_files d); [simpl in Hmany; lia | congruence]).
    specialize (Hb ltac:(assumption)). lia.
  - intros Hall Hcount.
    assert (Hok : is_OK (read_entries N sz p d d (zero_keys N sz) 0) = true).
    { rewrite load_is_OK by lia. unfold loadable. rewrite Hall. apply Z.leb_le in Hcount.
      rewrite Hcount. reflexivity. }
    destruct (read_entries N sz p d d _ 0) as [[keys n]|] eqn:H; [|discriminate].
    pose proof (read_entries_OK _ _ _ _ _ _ _ H) as (Hc & _ & _ & Hids).
    exists keys. split; [f_equal; f_equal; lia|].
    intros [name b] Hin. apply filter_In in Hin as [Hin Hk].
    rewrite Forall_forall in Hids.
    destruct (Hids (name, b) ltac:(apply list_elem_of_In; exact Hin) Hk) as [Hr (bytes & Hf & _)].
    exists bytes. split; [exact Hf|].
    rewrite (read_entries_slots _ _ _ _ _ _ _ H)
      by (unfold zero_keys; try apply repeat_length; lia).
    assert (Hl : listed d (entry_id (name, b)) = true).
    { unfold listed. apply existsb_exists. exists (name, b). split; [exact Hin|].
      rewrite Hk, Z.eqb_refl. reflexivity. }
    rewrite Hl. f_equal. unfold key_of. unfold key_entry, entry_id in *. simpl in *.
    destruct (key_file_name_roundtrip _ Hk) as [-> _]. rewrite Hf. reflexivity.
Qed.

(** C10. When kmgr_get_cryptokeys returns, the array has
    KMGR_MAX_INTERNAL_KEYS slots, slot [i] holds the bytes read from the
    file named by the four hexadecimal digits of [i] when the directory has
    one and is all zero otherwise, the count is the number of key files
    found, and listing the directory in another order gives the same array
    and count. *)
Theorem kmgr_get_cryptokeys_indexed_by_id (fs : filesystem) (p : path)
    (keys : list CryptoKey) (n : Z) :
  0 <= N <= 65536 ->
  kmgr_get_cryptokeys N sz fs p = OK (keys, n) ->
  exists d, fs_dir fs p = Some d /\
    length keys = Z.to_nat N /\
    n = Z.of_nat (length (key_files d)) /\
    (forall i, 0 <= i < N ->
       keys !! Z.to_nat i =
         Some (match dir_file d (CryptoKeyFileName i) with
               | Some bytes => firstn sz bytes
               | None => repeat 0 sz
               end)) /\
    (forall d', List.NoDup (map fst d) -> Permutation d d' ->
       kmgr_get_cryptokeys N sz (fs_set fs p (Some d')) p = OK (keys, n)).
Proof.
  intros HN H. unfold kmgr_get_cryptokeys in H.
  destruct (fs_dir fs p) as [d|] eqn:Hd; [|discriminate].
  exists d. split; [reflexivity|].
  pose proof (load_slots p d keys n ltac:(lia) H) as (Hl & Hn & Hs).
  split; [exact Hl|]. split; [exact Hn|]. split; [exact Hs|].
  intros d' Hnd Hp.
  rewrite (kmgr_get_cryptokeys_dir _ p d' (fs_dir_set _ _ _)).
  eapply load_Permutation; eauto.
Qed.

End KeyStoreFacts.

Lemma kmgr_get_cryptokeys_enumeration_witness :
  kmgr_get_cryptokeys 2 4 (mk_fs (Some (key_files sample_dir)) None) KMGR_DIR =
    kmgr_get_cryptokeys 2 4 (mk_fs (Some sample_dir) None) KMGR_DIR /\
  kmgr_get_cryptokeys 2 4 (mk_fs (Some sample_dir) None) KMGR_DIR =
    OK ([[1; 2; 3; 4]; [5; 6; 7; 8]], 2).
Proof.
  pose proof (kmgr_get_cryptokeys_enumeration 2 4 (mk_fs (Some sample_dir) None)
                KMGR_DIR sample_dir ltac:(lia) eq_refl) as (_ & H & _).
  split; [exact H | reflexivity].
Defined.

Lemma kmgr_get_cryptokeys_indexed_by_id_witness :
  kmgr_get_cryptokeys 2 4 (mk_fs (Some (rev sample_dir)) None) KMGR_DIR =
    OK ([[1; 2; 3; 4]; [5; 6; 7; 8]], 2).
Proof.
  destruct (kmgr_get_cryptokeys_indexed_by_id 2 4 (mk_fs (Some sample_dir) None) KMGR_DIR
              [[1; 2; 3; 4]; [5; 6; 7; 8]] 2 ltac:(lia) eq_refl)
    as (d & Hd & _ & _ & _ & Hperm).
  injection Hd as <-.
  apply (Hperm (rev sample_dir)).
  - repeat constructor; simpl; intuition discriminate.
  - apply Permutation_rev.
Defined.

(** ** Recovery *)

Section RecoveryFacts.

Variable N : Z.
Variable sz : nat.

Local Abbreviation loadable := (loadable N sz).
Local Abbreviation recoverIncompleteRotation := (recoverIncompleteRotation N sz).
Local Abbreviation kmgr_get_cryptokeys := (kmgr_get_cryptokeys N sz).

Lemma recover_tmp_absent p :
  recoverIncompleteRotation (mk_fs p None) = (OK tt, mk_fs p None).
Proof. reflexivity. Qed.

Lemma recover_only_tmp t :
  recoverIncompleteRotation (mk_fs None (Some t)) = (OK tt, mk_fs (Some t) None).
Proof. reflexivity. Qed.

Lemma recover_both p t :
  recoverIncompleteRotation (mk_fs (Some p) (Some t)) =
  match kmgr_get_cryptokeys (mk_fs (Some p) (Some t)) KMGR_TMP_DIR with
  | ERROR e => (ERROR e, mk_fs (Some p) (Some t))
  | OK (_, n) =>
      if n =? N then (OK tt, mk_fs (Some t) None) else (OK tt, mk_fs (Some p) None)
  end.
Proof.
  unfold_recover. simpl.
  destruct (kmgr_get_cryptokeys _ _) as [[keys n]|e]; [|reflexivity].
  destruct (n =? N); reflexivity.
Qed.

(** The load of the staging directory, by what the directory holds. *)
Lemma load_tmp_cases p t :
  0 <= N ->
  if loadable t
  then exists keys,
         kmgr_get_cryptokeys (mk_fs p (Some t)) KMGR_TMP_DIR =
           OK (keys, Z.of_nat (length (key_files t))) /\
         Z.of_nat (length (key_files t)) <= N
  else exists e,
         kmgr_get_cryptokeys (mk_fs p (Some t)) KMGR_TMP_DIR = ERROR e /\
         is_corrupt e = true.
Proof.
  intros HN. unfold_load. simpl.
  rewrite <- (load_is_OK N sz KMGR_TMP_DIR t HN).
  destruct (read_entries N sz KMGR_TMP_DIR t t _ 0) as [[keys n]|e] eqn:H; simpl.
  - pose proof (read_entries_OK _ _ _ _ _ _ _ _ _ H) as (Hc & _ & Hb & _).
    exists keys. split; [f_equal; f_equal; lia|].
    destruct (key_files t) eqn:E; [simpl; lia|]. rewrite <- E in *.
    specialize (Hb ltac:(rewrite E; congruence)). lia.
  - exists e. split; [reflexivity|]. eapply load_ERROR_corrupt, H.
Qed.

(** C2 (as amended). recoverIncompleteRotation by cases on the two
    directories: without the staging directory nothing changes; with the
    staging directory alone it becomes the primary one; with both, a
    staging directory that does not load (an identifier out of range, too
    many key files, a short file) stops the recovery with that error and
    both directories stay, one that loads with exactly
    KMGR_MAX_INTERNAL_KEYS key files replaces the primary directory, and
    one that loads with fewer is removed and the primary directory kept. *)
Theorem recoverIncompleteRotation_table (fs : filesystem) :
  0 <= N ->
  match pg_cryptokeys_tmp fs, pg_cryptokeys fs with
  | None, _ => recoverIncompleteRotation fs = (OK tt, fs)
  | Some t, None => recoverIncompleteRotation fs = (OK tt, mk_fs (Some t) None)
  | Some t, Some p =>
      if loadable t then
        if Z.of_nat (length (key_files t)) =? N
        then recoverIncompleteRotation fs = (OK tt, mk_fs (Some t) None)
        else Z.of_nat (length (key_files t)) < N /\
             recoverIncompleteRotation fs = (OK tt, mk_fs (Some p) None)
      else exists e, is_corrupt e = true /\
             recoverIncompleteRotation fs = (ERROR e, fs)
  end.
Proof.
  intros HN. destruct fs as [[p|] [t|]]; simpl; try reflexivity.
  rewrite recover_both.
  pose proof (load_tmp_cases (Some p) t HN) as H.
  destruct (loadable t).
  - destruct H as (keys & -> & Hle).
    destruct (_ =? N) eqn:E; [reflexivity|]. apply Z.eqb_neq in E. split; [lia | reflexivity].
  - destruct H as (e & -> & Hc). exists e. auto.
Qed.

(** C9. Running recoverIncompleteRotation a second time leaves the key
    store as the first run left it; a run that returns leaves no staging
    directory, and a run without staging directory changes nothing. *)
Theorem recoverIncompleteRotation_idempotent (fs : filesystem) :
  snd (recoverIncompleteRotation (snd (recoverIncompleteRotation fs))) =
    snd (recoverIncompleteRotation fs) /\
  (fst (recoverIncompleteRotation fs) = OK tt ->
     pg_cryptokeys_tmp (snd (recoverIncompleteRotation fs)) = None /\
     recoverIncompleteRotation (snd (recoverIncompleteRotation fs)) =
       (OK tt, snd (recoverIncompleteRotation fs))) /\
  (pg_cryptokeys_tmp fs = None -> recoverIncompleteRotation fs = (OK tt, fs)).
Proof.
  destruct fs as [[p|] [t|]];
    try (repeat split; intros; solve [reflexivity | discriminate]).
  rewrite recover_both.
  destruct (kmgr_get_cryptokeys _ _) as [[keys n]|e] eqn:H.
  - destruct (n =? N); repeat split; intros; try reflexivity; discriminate.
  - simpl. rewrite recover_both, H. repeat split; intros; try reflexivity; discriminate.
Qed.

End RecoveryFacts.

(** C2, counterexample: with both directories present and a file cut short
    in the staging directory, which so holds fewer than
    KMGR_MAX_INTERNAL_KEYS valid files, the specification's table removes
    the staging directory, while recoverIncompleteRotation raises the
    read error and leaves it in place. *)
Lemma recover_truncated_tmp_keeps_tmp :
  recoverIncompleteRotation 1 4 truncated_tmp =
    (ERROR (could_not_read_file KMGR_TMP_DIR "0000" 0), truncated_tmp) /\
  Z.of_nat (length (List.filter (valid_key_file 1 4)
                      [("0000", @nil Z)])) < 1 /\
  pg_cryptokeys_tmp (spec_recover_rotation 1 4 truncated_tmp) = None /\
  snd (recoverIncompleteRotation 1 4 truncated_tmp) <> spec_recover_rotation 1 4 truncated_tmp.
Proof.
  split; [reflexivity|]. split; [reflexivity|]. split; [reflexivity|]. discriminate.
Qed.

Lemma recoverIncompleteRotation_table_witness :
  0 <= 2 /\
  recoverIncompleteRotation 2 4 (mk_fs (Some [("0000", [1; 2; 3; 4])]) (Some sample_dir)) =
    (OK tt, mk_fs (Some sample_dir) None).
Proof.
  split; [lia|].
  exact (recoverIncompleteRotation_table 2 4
           (mk_fs (Some [("0000", [1; 2; 3; 4])]) (Some sample_dir)) ltac:(lia)).
Defined.

(** ** Crash points of a rotation *)

Ltac unfold_loadable_in H := unfold loadable in H.
Ltac unfold_read_one_keyfile := unfold read_one_keyfile.

Lemma CryptoKeyFileName_inj a b :
  0 <= a < 65536 -> 0 <= b < 65536 ->
  CryptoKeyFileName a = CryptoKeyFileName b -> a = b.
Proof.
  intros Ha Hb E.
  destruct (key_file_id_roundtrip a Ha) as [_ <-].
  destruct (key_file_id_roundtrip b Hb) as [_ <-].
  rewrite E. reflexivity.
Qed.

Lemma key_dir_from_length id ws : length (key_dir_from id ws) = length ws.
Proof. revert id. induction ws as [|w ws IH]; intros; simpl; [reflexivity | rewrite IH; reflexivity]. Qed.

Lemma key_files_key_dir_from id ws :
  0 <= id -> id + Z.of_nat (length ws) <= 65536 ->
  key_files (key_dir_from id ws) = key_dir_from id ws.
Proof.
  revert id. induction ws as [|w ws IH]; intros id H0 H1; cbn [key_dir_from]; [reflexivity|].
  cbn [length] in H1.
  rewrite key_files_cons_key by (apply key_file_id_roundtrip; lia).
  rewrite IH by lia. reflexivity.
Qed.

Lemma dir_file_key_dir_from id ws i :
  0 <= id -> id + Z.of_nat (length ws) <= 65536 ->
  id <= i < id + Z.of_nat (length ws) ->
  dir_file (key_dir_from id ws) (CryptoKeyFileName i) = ws !! Z.to_nat (i - id).
Proof.
  revert id. induction ws as [|w ws IH]; intros id H0 H1 Hi; simpl in *; [lia|].
  destruct (String.eqb _ _) eqn:E.
  - apply String.eqb_eq in E. apply CryptoKeyFileName_inj in E; [|lia|lia]. subst i.
    rewrite Z.sub_diag. reflexivity.
  - assert (i <> id) by (intros ->; rewrite String.eqb_refl in E; discriminate).
    rewrite IH by lia.
    replace (Z.to_nat (i - id)) with (S (Z.to_nat (i - (id + 1)))) by lia. reflexivity.
Qed.

Lemma key_dir_from_In id ws e :
  In e (key_dir_from id ws) ->
  exists j w, ws !! j = Some w /\ e = (CryptoKeyFileName (id + Z.of_nat j), w).
Proof.
  revert id. induction ws as [|x ws IH]; intros id; cbn [key_dir_from]; [intros []|].
  intros [<-|H].
  - exists O, x. rewrite Z.add_0_r. auto.
  - apply IH in H as (j & w & Hj & ->). exists (S j), w. split; [exact Hj|].
    do 2 f_equal. lia.
Qed.

Section CrashPoints.

Variable N : Z.
Variable sz : nat.

Local Abbreviation loadable := (loadable N sz).
Local Abbreviation recoverIncompleteRotation := (recoverIncompleteRotation N sz).
Local Abbreviation kmgr_get_cryptokeys := (kmgr_get_cryptokeys N sz).

Lemma key_dir_loadable ws :
  Z.of_nat (length ws) <= N <= 65536 ->
  Forall (fun w => length w = sz) ws ->
  loadable (key_dir ws) = true.
Proof.
  intros HN Hsz. unfold_loadable. unfold key_dir.
  rewrite key_files_key_dir_from by lia. rewrite key_dir_from_length.
  apply andb_true_iff. split; [|apply Z.leb_le; lia].
  apply forallb_forall. intros [name b] Hin.
  apply key_dir_from_In in Hin as (j & w & Ew & [= -> ->]).
  rewrite Z.add_0_l.
  assert (Hlt : (j < length ws)%nat) by (eapply lookup_lt_Some, Ew).
  unfold entry_ok, entry_id. cbn [fst].
  destruct (key_file_id_roundtrip (Z.of_nat j) ltac:(lia)) as [_ ->].
  rewrite dir_file_key_dir_from by lia.
  rewrite Z.sub_0_r, Nat2Z.id, Ew.
  apply andb_true_iff. split; [apply Z.ltb_lt; lia|].
  unfold full_size. apply Nat.leb_le.
  rewrite Forall_forall in Hsz. rewrite (Hsz w); [lia|].
  eapply list_elem_of_lookup_2, Ew.
Qed.

(** Loading the directory written from a key set gives the set back. *)
Lemma key_dir_load p fs ws :
  Z.of_nat (length ws) = N -> N <= 65536 ->
  Forall (fun w => length w = sz) ws ->
  fs_dir fs p = Some (key_dir ws) ->
  kmgr_get_cryptokeys fs p = OK (ws, N).
Proof.
  intros Hlen HN Hsz Hd.
  rewrite (kmgr_get_cryptokeys_dir N sz fs p _ Hd).
  assert (Hok : is_OK (read_entries N sz p (key_dir ws) (key_dir ws) (zero_keys N sz) 0) = true).
  { rewrite load_is_OK by lia. apply key_dir_loadable; [lia | exact Hsz]. }
  destruct (read_entries _ _ _ _ _ _ _) as [[keys n]|] eqn:H; [|discriminate].
  apply load_slots in H as (Hl & Hn & Hs); [|lia].
  f_equal. f_equal.
  - apply list_eq. intros j.
    destruct (decide (j < length ws)%nat) as [Hj|Hj].
    + specialize (Hs (Z.of_nat j) ltac:(lia)). rewrite Nat2Z.id in Hs. rewrite Hs.
      unfold key_of, key_dir. rewrite dir_file_key_dir_from by lia.
      rewrite Z.sub_0_r, Nat2Z.id.
      destruct (ws !! j) as [w|] eqn:Ew; [|apply lookup_ge_None in Ew; lia].
      f_equal. apply firstn_all2.
      rewrite Forall_forall in Hsz. rewrite (Hsz w); [lia|].
      eapply list_elem_of_lookup_2, Ew.
    + rewrite !lookup_ge_None_2 by lia. reflexivity.
  - rewrite Hn. unfold key_dir. rewrite key_files_key_dir_from by lia.
    rewrite key_dir_from_length. exact Hlen.
Qed.


Lemma key_dir_from_app id a b :
  key_dir_from id (a ++ b)%list =
  (key_dir_from id a ++ key_dir_from (id + Z.of_nat (length a)) b)%list.
Proof.
  revert id. induction a as [|w a IH]; intros id; cbn [app key_dir_from length].
  - rewrite Z.add_0_r. reflexivity.
  - rewrite IH. do 2 f_equal. f_equal. lia.
Qed.

Lemma dir_file_key_dir_fresh id ws i :
  0 <= id -> id + Z.of_nat (length ws) <= i < 65536 ->
  dir_file (key_dir_from id ws) (CryptoKeyFileName i) = None.
Proof.
  revert id. induction ws as [|w ws IH]; intros id H0 Hi; cbn [key_dir_from dir_file length] in *;
    [reflexivity|].
  destruct (String.eqb _ _) eqn:E.
  - apply String.eqb_eq in E. apply CryptoKeyFileName_inj in E; lia.
  - apply IH; lia.
Qed.

Lemma dir_file_app d d' name :
  dir_file (d ++ d')%list name =
  match dir_file d name with Some b => Some b | None => dir_file d' name end.
Proof.
  induction d as [|[n b] d IH]; cbn [app dir_file]; [reflexivity|].
  destruct (String.eqb n name); [reflexivity | exact IH].
Qed.

Lemma write_file_last d name old bytes :
  dir_file d name = None ->
  write_file (d ++ [(name, old)])%list name bytes = (d ++ [(name, bytes)])%list.
Proof.
  induction d as [|[n b] d IH]; cbn [app write_file dir_file].
  - rewrite String.eqb_refl. reflexivity.
  - destruct (String.eqb n name); [discriminate|]. intros H. rewrite IH by exact H. reflexivity.
Qed.

Lemma spec_save_steps_length id ws :
  length (spec_save_steps id ws) = (2 * length ws)%nat.
Proof.
  revert id. induction ws as [|w ws IH]; intros; cbn [spec_save_steps length];
    [reflexivity | rewrite IH; lia].
Qed.

(** The staging directory while [save_all] runs: the files of the keys
    written so far, and after them the file just created, if any. *)
Lemma fold_save_steps todo : forall j done P,
  Z.of_nat (length done + length todo) <= 65536 ->
  exists m, (m <= length todo)%nat /\
    ((fold_left spec_run_step (firstn j (spec_save_steps (Z.of_nat (length done)) todo))
        (mk_fs P (Some (key_dir done))) =
      mk_fs P (Some (key_dir (done ++ firstn m todo)%list)) /\
      ((2 * length todo <= j)%nat -> m = length todo)) \/
     ((m < length todo)%nat /\ (j < 2 * length todo)%nat /\
      fold_left spec_run_step (firstn j (spec_save_steps (Z.of_nat (length done)) todo))
        (mk_fs P (Some (key_dir done))) =
      mk_fs P (Some (key_dir (done ++ firstn m todo)%list ++
                     [(CryptoKeyFileName (Z.of_nat (length done + m)), [])])%list))).
Proof.
  induction todo as [|w todo IH]; intros j done P Hb.
  - exists O. split; [reflexivity|]. left. cbn [spec_save_steps firstn]. rewrite firstn_nil.
    rewrite app_nil_r. split; [reflexivity | reflexivity].
  - cbn [length] in Hb. destruct j as [|[|j]].
    + exists O. split; [lia|]. left. cbn [firstn fold_left]. rewrite app_nil_r.
      split; [reflexivity | cbn [length]; lia].
    + exists O. split; [lia|]. right. cbn [length]. split; [lia|]. split; [lia|].
      cbn [spec_save_steps firstn fold_left spec_run_step pg_cryptokeys_tmp fs_set pg_cryptokeys].
      rewrite app_nil_r, Nat.add_0_r. reflexivity.
    + cbn [spec_save_steps firstn fold_left].
      cbn [spec_run_step pg_cryptokeys_tmp fs_set pg_cryptokeys].
      rewrite write_file_last
        by (unfold key_dir; apply dir_file_key_dir_fresh; lia).
      replace (key_dir done ++ [(CryptoKeyFileName (Z.of_nat (length done)), w)])%list
        with (key_dir (done ++ [w])%list)
        by (unfold key_dir; rewrite key_dir_from_app; reflexivity).
      replace (Z.of_nat (length done) + 1) with (Z.of_nat (length (done ++ [w])%list))
        by (rewrite length_app; cbn [length]; lia).
      destruct (IH j (done ++ [w])%list P) as (m & Hm & H).
      { rewrite length_app. cbn [length]. lia. }
      exists (S m). split; [cbn [length]; lia|].
      cbn [firstn length].
      assert (Happ : ((done ++ [w]) ++ firstn m todo = done ++ w :: firstn m todo)%list)
        by (rewrite <- app_assoc; reflexivity).
      destruct H as [[E Hfull] | (Hlt & Hj & E)].
      * left. rewrite E, Happ. split; [reflexivity | intros; f_equal; apply Hfull; lia].
      * right. split; [lia|]. split; [lia|]. rewrite E, Happ, length_app. cbn [length].
        replace (length done + 1 + m)%nat with (length done + S m)%nat by lia. reflexivity.
Qed.

Lemma fold_unlink_steps m j p T :
  fold_left spec_run_step (firstn j (repeat unlink_primary_entry m)) (mk_fs (Some p) T) =
  mk_fs (Some (skipn (Nat.min j m) p)) T.
Proof.
  revert j p. induction m as [|m IH]; intros j p.
  - destruct j; reflexivity.
  - destruct j as [|j]; [reflexivity|].
    cbn [repeat firstn fold_left Nat.min]. destruct p as [|e p].
    + simpl. rewrite IH. rewrite skipn_nil. reflexivity.
    + simpl. rewrite IH. reflexivity.
Qed.

(** The key stores a crash can leave. *)
Lemma spec_crash_state_cases old_dir new_wrapped k :
  Z.of_nat (length new_wrapped) <= 65536 ->
  spec_crash_state old_dir new_wrapped k = mk_fs (Some old_dir) None \/
  (exists j, spec_crash_state old_dir new_wrapped k =
               mk_fs (Some old_dir) (Some (key_dir (firstn j new_wrapped)))) \/
  (exists j, (j < length new_wrapped)%nat /\
             spec_crash_state old_dir new_wrapped k =
               mk_fs (Some old_dir)
                 (Some (key_dir (firstn j new_wrapped) ++
                        [(CryptoKeyFileName (Z.of_nat j), [])])%list)) \/
  (exists p, spec_crash_state old_dir new_wrapped k =
               mk_fs (Some p) (Some (key_dir new_wrapped))) \/
  spec_crash_state old_dir new_wrapped k = mk_fs None (Some (key_dir new_wrapped)) \/
  spec_crash_state old_dir new_wrapped k = mk_fs (Some (key_dir new_wrapped)) None.
Proof.
  intros Hb. destruct k as [|k]; [left; reflexivity|].
  assert (Hcs : spec_crash_state old_dir new_wrapped (S k) =
    fold_left spec_run_step
      (firstn (k - 2 * length new_wrapped - length (repeat unlink_primary_entry (length old_dir)))
         [remove_primary_dir; rename_tmp_dir])
      (fold_left spec_run_step
         (firstn (k - 2 * length new_wrapped) (repeat unlink_primary_entry (length old_dir)))
         (fold_left spec_run_step (firstn k (spec_save_steps 0 new_wrapped))
            (mk_fs (Some old_dir) (@Some directory []))))).
  { unfold spec_crash_state, spec_rotation_steps. cbn [firstn fold_left].
    rewrite !firstn_app, !fold_left_app, spec_save_steps_length. reflexivity. }
  rewrite Hcs. clear Hcs.
  destruct (fold_save_steps new_wrapped k [] (Some old_dir) ltac:(cbn [length]; lia))
    as (m & Hm & H).
  cbn [length app Nat.add] in H. change (Z.of_nat 0) with 0 in H.
  change (key_dir []) with (@nil (string * list Z)) in H.
  destruct H as [[-> Hfull] | (Hlt & Hj & ->)].
  - set (k1 := (k - 2 * length new_wrapped)%nat).
    destruct (decide (k1 = 0)%nat) as [Hk1|Hk1].
    { rewrite Hk1. cbn [firstn fold_left]. right. left. exists m. reflexivity. }
    rewrite Hfull by (unfold k1 in Hk1; lia). rewrite firstn_all.
    rewrite fold_unlink_steps.
    set (k2 := (k1 - _)%nat).
    destruct k2 as [|[|k2]]; simpl.
    + right. right. right. left. eexists. reflexivity.
    + right. right. right. right. left. reflexivity.
    + right. right. right. right. right. destruct k2; reflexivity.
  - replace (k - 2 * length new_wrapped)%nat with O by lia.
    cbn [firstn fold_left]. right. right. left. exists m. split; [exact Hlt | reflexivity].
Qed.

Lemma recover_complete_tmp p ws :
  Z.of_nat (length ws) = N -> 0 <= N <= 65536 ->
  Forall (fun w => length w = sz) ws ->
  recoverIncompleteRotation (mk_fs (Some p) (Some (key_dir ws))) =
    (OK tt, mk_fs (Some (key_dir ws)) None).
Proof.
  intros Hlen HN Hsz. rewrite recover_both.
  rewrite (key_dir_load KMGR_TMP_DIR (mk_fs (Some p) (Some (key_dir ws))) ws Hlen ltac:(lia) Hsz eq_refl).
  rewrite Z.eqb_refl. reflexivity.
Qed.

Lemma recover_partial_tmp p ws j :
  Z.of_nat (length ws) = N -> 0 <= N <= 65536 ->
  Forall (fun w => length w = sz) ws ->
  (j < length ws)%nat ->
  recoverIncompleteRotation (mk_fs (Some p) (Some (key_dir (firstn j ws)))) =
    (OK tt, mk_fs (Some p) None).
Proof.
  intros Hlen HN Hsz Hj. rewrite recover_both.
  assert (Hlenj : length (firstn j ws) = j) by (rewrite length_firstn; lia).
  pose proof (load_tmp_cases N sz (Some p) (key_dir (firstn j ws)) ltac:(lia)) as H.
  rewrite key_dir_loadable in H; [| lia | apply Forall_take, Hsz].
  destruct H as (keys & -> & _).
  unfold key_dir. rewrite key_files_key_dir_from by lia.
  rewrite key_dir_from_length, Hlenj.
  destruct (Z.of_nat j =? N) eqn:E; [apply Z.eqb_eq in E; lia | reflexivity].
Qed.


Lemma read_entries_app p d a b keys n :
  read_entries N sz p d (a ++ b)%list keys n =
  match read_entries N sz p d a keys n with
  | OK (keys', n') => read_entries N sz p d b keys' n'
  | ERROR e => ERROR e
  end.
Proof.
  revert keys n. induction a as [|[name bytes] a IH]; intros keys n; [reflexivity|].
  cbn [app]. destruct (is_key_file_name name) eqn:E.
  - rewrite !read_entries_cons_key by exact E. cbv zeta.
    destruct (_ >=? N); [reflexivity|]. destruct (n >=? N); [reflexivity|].
    destruct (read_one_keyfile _ _ _ _) as [k|e]; [apply IH | reflexivity].
  - rewrite !read_entries_cons_other by exact E. apply IH.
Qed.

(** The load of a staging directory whose last file was created and not
    yet written stops at that file with a short read of 0 bytes. *)
Lemma load_unwritten_file fs ws j :
  Z.of_nat (length ws) = N -> 0 <= N <= 65536 -> (0 < sz)%nat ->
  Forall (fun w => length w = sz) ws ->
  (j < length ws)%nat ->
  fs_dir fs KMGR_TMP_DIR =
    Some (key_dir (firstn j ws) ++ [(CryptoKeyFileName (Z.of_nat j), [])])%list ->
  kmgr_get_cryptokeys fs KMGR_TMP_DIR =
    ERROR (could_not_read_file KMGR_TMP_DIR (CryptoKeyFileName (Z.of_nat j)) 0).
Proof.
  intros Hlen HN Hsz Hall Hj Hd.
  rewrite (kmgr_get_cryptokeys_dir N sz fs KMGR_TMP_DIR _ Hd).
  set (pre := key_dir (firstn j ws)).
  set (d := (pre ++ [(CryptoKeyFileName (Z.of_nat j), [])])%list).
  assert (Hlenj : length (firstn j ws) = j) by (rewrite length_firstn; lia).
  assert (Hkf : key_files pre = pre).
  { unfold pre, key_dir. apply key_files_key_dir_from; lia. }
  assert (Hpre : loadable pre = true).
  { apply key_dir_loadable; [lia | apply Forall_take, Hall]. }
  unfold_loadable_in Hpre. apply andb_true_iff in Hpre as [Hpre _].
  rewrite Hkf in Hpre. rewrite forallb_forall in Hpre.
  assert (Hok : is_OK (read_entries N sz KMGR_TMP_DIR d pre (zero_keys N sz) 0) = true).
  { rewrite read_entries_is_OK by lia. rewrite Hkf. apply andb_true_iff. split.
    - apply forallb_forall. intros e He. specialize (Hpre e He).
      unfold entry_ok in Hpre |- *. apply andb_true_iff in Hpre as [Hid Hf].
      apply andb_true_iff. split; [exact Hid|].
      unfold d. rewrite dir_file_app.
      destruct (dir_file pre (fst e)); [exact Hf | discriminate].
    - apply Z.leb_le. unfold pre, key_dir. rewrite key_dir_from_length. lia. }
  unfold d at 2. rewrite read_entries_app.
  destruct (read_entries N sz KMGR_TMP_DIR d pre (zero_keys N sz) 0) as [[keys n]|] eqn:E;
    [|discriminate].
  apply read_entries_OK in E as (Hn & _).
  rewrite Hkf in Hn. unfold pre, key_dir in Hn. rewrite key_dir_from_length, Hlenj in Hn.
  destruct (key_file_id_roundtrip (Z.of_nat j) ltac:(lia)) as [Hname Hid].
  rewrite read_entries_cons_key by exact Hname. cbv zeta. rewrite Hid.
  destruct (Z.of_nat j >=? N) eqn:E1; [lia|].
  destruct (n >=? N) eqn:E2; [lia|].
  unfold_read_one_keyfile. unfold d. rewrite dir_file_app.
  unfold pre, key_dir. rewrite dir_file_key_dir_fresh by lia.
  cbn [dir_file]. rewrite String.eqb_refl. cbn [length Nat.min].
  destruct sz; [lia | reflexivity].
Qed.

Lemma recover_unwritten_file p ws j :
  Z.of_nat (length ws) = N -> 0 <= N <= 65536 -> (0 < sz)%nat ->
  Forall (fun w => length w = sz) ws ->
  (j < length ws)%nat ->
  let fs := mk_fs (Some p)
              (Some (key_dir (firstn j ws) ++ [(CryptoKeyFileName (Z.of_nat j), [])])%list) in
  recoverIncompleteRotation fs =
    (ERROR (could_not_read_file KMGR_TMP_DIR (CryptoKeyFileName (Z.of_nat j)) 0), fs).
Proof.
  intros Hlen HN Hsz Hall Hj fs. unfold fs. rewrite recover_both.
  match goal with
  | |- context [kmgr_get_cryptokeys ?f KMGR_TMP_DIR] =>
      rewrite (load_unwritten_file f ws j Hlen HN Hsz Hall Hj eq_refl)
  end.
  reflexivity.
Qed.

End CrashPoints.

Lemma unwritten_key_file_written sz P ws :
  Forall (fun w => length w = sz) ws ->
  unwritten_key_file sz (mk_fs P (Some (key_dir ws))) = false.
Proof.
  intros Hall. unfold unwritten_key_file. cbn [pg_cryptokeys_tmp].
  apply not_true_is_false. intros H. apply existsb_exists in H as (e & He & Hshort).
  apply filter_In in He as [He _]. apply key_dir_from_In in He as (i & w & Hw & ->).
  cbn [snd] in Hshort. unfold full_size in Hshort.
  rewrite Forall_forall in Hall.
  rewrite (Hall w) in Hshort by (eapply list_elem_of_lookup_2, Hw).
  rewrite Nat.leb_refl in Hshort. discriminate.
Qed.

Lemma unwritten_key_file_created sz P d i :
  (0 < sz)%nat -> 0 <= i < 65536 ->
  unwritten_key_file sz (mk_fs P (Some (d ++ [(CryptoKeyFileName i, [])])%list)) = true.
Proof.
  intros Hsz Hi. unfold unwritten_key_file. cbn [pg_cryptokeys_tmp].
  apply existsb_exists. exists (CryptoKeyFileName i, []). split.
  - apply filter_In. split; [apply in_or_app; right; left; reflexivity|].
    apply key_file_id_roundtrip, Hi.
  - cbn [snd length]. unfold full_size. destruct sz; [lia | reflexivity].
Qed.

Section AfterCrash.

Context {aead : Aead}.
Variable N : Z.
Variable sz : nat.
Variables ctx_old ctx_new : PgAeadCtx.
Variable old_dir : directory.
Variables old_keys new_wrapped : list CryptoKey.


End AfterCrash.



(** ** Startup, key access and rotation *)

Section Coordinator.

Context {aead : Aead}.
Variable N : Z.
Variable sz : nat.
Variable MAXPGPATH : nat.
Variable StrNCpy : list ascii -> nat -> string -> nat -> result (list ascii).
Variable OpenPipeStream : string -> pipe.
Variable command : string.
Variable assert_checking : bool.
Variable KMGR_MAX_PASSPHRASE_LEN : nat.
Variable stack_command : nat -> ascii.
Variables stack_enckey stack_hmackey : list Z.

Local Abbreviation InitializeKmgr :=
  (InitializeKmgr N sz MAXPGPATH StrNCpy OpenPipeStream true command assert_checking
     KMGR_MAX_PASSPHRASE_LEN stack_command stack_enckey stack_hmackey).
Local Abbreviation run_command :=
  (kmgr_run_cluster_passphrase_command MAXPGPATH StrNCpy OpenPipeStream assert_checking
     stack_command command KMGR_MAX_PASSPHRASE_LEN).

(** C7. With neither key directory on disk, InitializeKmgr raises the
    error of kmgr_get_cryptokeys on the missing primary directory; the
    passphrase command is not run and the cache is not touched. *)
Theorem InitializeKmgr_missing_keystore (keys : list CryptoKey) (cmds : list string) :
  InitializeKmgr (mk_state (mk_fs None None) keys cmds) =
    (ERROR (could_not_open_directory KMGR_DIR), mk_state (mk_fs None None) keys cmds).
Proof. reflexivity. Qed.

(** The loop of kmgr_verify_passphrase writes the slots in order and stops
    at the first key that does not unwrap. *)
Lemma unwrap_from_spec ctx keys_in keys_out i todo :
  (i + todo <= length keys_in)%nat -> (i + todo <= length keys_out)%nat ->
  exists ok out,
    unwrap_from ctx keys_in keys_out i todo = OK (ok, out) /\
    length out = length keys_out /\
    (forall j, (j < i)%nat -> out !! j = keys_out !! j) /\
    (ok = true ->
       (forall j key_in key_out, (i <= j < i + todo)%nat ->
          keys_in !! j = Some key_in -> keys_out !! j = Some key_out ->
          unwraps ctx key_in = true /\ out !! j = Some (unwrapped ctx key_in key_out)) /\
       (forall j, (i + todo <= j)%nat -> out !! j = keys_out !! j)) /\
    (ok = false ->
       exists f key_f, (i <= f < i + todo)%nat /\
         keys_in !! f = Some key_f /\ unwraps ctx key_f = false /\
         (forall j key_in key_out, (i <= j < f)%nat ->
            keys_in !! j = Some key_in -> keys_out !! j = Some key_out ->
            unwraps ctx key_in = true /\ out !! j = Some (unwrapped ctx key_in key_out)) /\
         (forall j, (f < j)%nat -> out !! j = keys_out !! j)).
Proof.
  revert keys_out i. induction todo as [|todo IH]; intros keys_out i Hin Hout.
  - exists true, keys_out. simpl. split; [reflexivity|]. split; [reflexivity|].
    split; [reflexivity|]. split; [|discriminate].
    intros _. split; [intros; lia | reflexivity].
  - cbn [unwrap_from].
    destruct (keys_in !! i) as [kin|] eqn:Ein; [|apply lookup_ge_None in Ein; lia].
    destruct (keys_out !! i) as [kout|] eqn:Eout; [|apply lookup_ge_None in Eout; lia].
    unfold kmgr_unwrap_key.
    destruct (pg_aead_decrypt ctx kin) as [okd write] eqn:Ed.
    assert (Hu : unwraps ctx kin = okd) by (unfold unwraps; rewrite Ed; reflexivity).
    assert (Hw : unwrapped ctx kin kout = write kout) by (unfold unwrapped; rewrite Ed; reflexivity).
    destruct okd; simpl.
    + destruct (IH (<[i := write kout]> keys_out) (S i))
        as (ok & out & Hrun & Hlen & Hbefore & Hok & Hfail);
        [lia | rewrite length_insert; lia |].
      exists ok, out. split; [exact Hrun|]. rewrite length_insert in Hlen.
      split; [exact Hlen|].
      assert (Hi : out !! i = Some (write kout)).
      { rewrite Hbefore by lia. apply list_lookup_insert_eq. apply lookup_lt_Some in Eout. lia. }
      split; [intros j Hj; rewrite Hbefore by lia; apply list_lookup_insert_ne; lia|].
      split.
      * intros Ht. destruct (Hok Ht) as [Hin_range Hafter]. split.
        -- intros j key_in key_out Hj Hkin Hkout.
           destruct (decide (j = i)) as [->|Hne].
           ++ rewrite Ein in Hkin. rewrite Eout in Hkout.
              injection Hkin as <-. injection Hkout as <-.
              rewrite Hu, Hw. auto.
           ++ apply (Hin_range j key_in key_out); [lia | exact Hkin |].
              rewrite list_lookup_insert_ne by lia. exact Hkout.
        -- intros j Hj. rewrite Hafter by lia. apply list_lookup_insert_ne. lia.
      * intros Hf. destruct (Hfail Hf) as (f & key_f & Hfr & Hkf & Huf & Hpre & Hpost).
        exists f, key_f. split; [lia|]. split; [exact Hkf|]. split; [exact Huf|]. split.
        -- intros j key_in key_out Hj Hkin Hkout.
           destruct (decide (j = i)) as [->|Hne].
           ++ rewrite Ein in Hkin. rewrite Eout in Hkout.
              injection Hkin as <-. injection Hkout as <-.
              rewrite Hu, Hw. auto.
           ++ apply (Hpre j key_in key_out); [lia | exact Hkin |].
              rewrite list_lookup_insert_ne by lia. exact Hkout.
        -- intros j Hj. rewrite Hpost by lia. apply list_lookup_insert_ne. lia.
    + exists false, (<[i := write kout]> keys_out).
      split; [reflexivity|]. split; [apply length_insert|].
      split; [intros j Hj; apply list_lookup_insert_ne; lia|].
      split; [discriminate|]. intros _.
      exists i, kin. split; [lia|]. split; [exact Ein|]. split; [exact Hu|].
      split; [intros; lia|]. intros j Hj. apply list_lookup_insert_ne. lia.
Qed.


Lemma unwrap_from_all ctx keys_in keys_out ok out :
  length keys_in = length keys_out ->
  unwrap_from ctx keys_in keys_out 0 (length keys_in) = OK (ok, out) ->
  ok = unwraps_all ctx keys_in.
Proof.
  intros Hlen Hrun.
  destruct (unwrap_from_spec ctx keys_in keys_out 0 (length keys_in) ltac:(lia) ltac:(lia))
    as (ok' & out' & Hrun' & _ & _ & Hok & Hfail).
  rewrite Hrun in Hrun'. injection Hrun' as <- <-.
  destruct ok.
  - destruct (Hok eq_refl) as [Hall _]. symmetry. unfold unwraps_all. apply forallb_forall.
    intros key_in Hin. apply list_elem_of_In, list_elem_of_lookup in Hin as [j Hj].
    pose proof (lookup_lt_Some _ _ _ Hj) as Hlt.
    destruct (keys_out !! j) as [key_out|] eqn:Eo; [|apply lookup_ge_None in Eo; lia].
    destruct (Hall j key_in key_out ltac:(lia) Hj Eo) as [Hu _]. exact Hu.
  - destruct (Hfail eq_refl) as (f & key_f & _ & Hkf & Hu & _).
    symmetry. apply not_true_is_false. intros Hall.
    unfold unwraps_all in Hall. rewrite forallb_forall in Hall.
    specialize (Hall key_f ltac:(apply list_elem_of_In; eapply list_elem_of_lookup_2, Hkf)).
    unfold unwraps in Hu. congruence.
Qed.

(** C3 (as amended). At startup kmgr_verify_passphrase unwraps the keys one
    by one straight into the shared cache.  When all keys unwrap,
    InitializeKmgr returns and every slot holds its unwrapped key.  When
    some key does not unwrap, InitializeKmgr raises the passphrase error,
    the slots before the first such key already hold their unwrapped keys
    and the slots after it are as they were. *)
Theorem InitializeKmgr_unwraps_into_cache (st : state) (keys_wrap : list CryptoKey)
    (passphrase : list Z) (passlen : Z) :
  pg_cryptokeys_tmp (disk st) = None ->
  kmgr_get_cryptokeys N sz (disk st) KMGR_DIR = OK (keys_wrap, N) ->
  run_command = OK (passphrase, passlen) ->
  length (intlKeys st) = Z.to_nat N ->
  let ctx := pg_create_aead_ctx stack_enckey stack_hmackey in
  exists r st',
    InitializeKmgr st = (r, st') /\
    disk st' = disk st /\
    length (intlKeys st') = length (intlKeys st) /\
    (unwraps_all ctx keys_wrap = true ->
       r = OK tt /\
       forall i key_in key_out,
         keys_wrap !! i = Some key_in -> intlKeys st !! i = Some key_out ->
         intlKeys st' !! i = Some (unwrapped ctx key_in key_out)) /\
    (unwraps_all ctx keys_wrap = false ->
       r = ERROR passphrase_does_not_match /\
       exists f key_f,
         keys_wrap !! f = Some key_f /\ unwraps ctx key_f = false /\
         (forall j key_in key_out, (j < f)%nat ->
            keys_wrap !! j = Some key_in -> intlKeys st !! j = Some key_out ->
            unwraps ctx key_in = true /\
            intlKeys st' !! j = Some (unwrapped ctx key_in key_out)) /\
         (forall j, (f < j)%nat -> intlKeys st' !! j = intlKeys st !! j)).
Proof.
  intros Htmp Hload Hcmd Hlen ctx.
  assert (Hkw : length keys_wrap = Z.to_nat N).
  { unfold kmgr_get_cryptokeys in Hload.
    destruct (fs_dir (disk st) KMGR_DIR) as [d|]; [|discriminate].
    apply read_entries_OK in Hload as (_ & -> & _). apply repeat_length. }
  destruct st as [[prim tmp] keys cmds]. simpl in Htmp, Hload, Hlen |- *. subst tmp.
  unfold_startup. cbn [negb disk].
  rewrite recover_tmp_absent. cbn [set_disk disk intlKeys commands_run].
  rewrite Hload. rewrite Z.eqb_refl, andb_false_r. rewrite Hcmd.
  unfold kmgr_verify_passphrase, kmgr_derive_keys. fold ctx.
  destruct (unwrap_from_spec ctx keys_wrap keys 0 (Z.to_nat N) ltac:(lia) ltac:(lia))
    as (ok & out & Hrun & Hout & _ & Hok & Hfail).
  rewrite Hrun.
  assert (Hall : ok = unwraps_all ctx keys_wrap).
  { eapply unwrap_from_all; [|rewrite Hkw; exact Hrun]. lia. }
  destruct ok; cbn [negb].
  - eexists _, _. split; [reflexivity|]. split; [reflexivity|]. split; [exact Hout|].
    rewrite <- Hall. split; [|discriminate]. intros _. split; [reflexivity|].
    intros i key_in key_out Hi Ho. destruct (Hok eq_refl) as [Hin _].
    apply (Hin i key_in key_out); [|exact Hi|exact Ho].
    apply lookup_lt_Some in Hi. lia.
  - eexists _, _. split; [reflexivity|]. split; [reflexivity|]. split; [exact Hout|].
    rewrite <- Hall. split; [discriminate|]. intros _. split; [reflexivity|].
    destruct (Hfail eq_refl) as (f & key_f & Hfr & Hkf & Hu & Hpre & Hpost).
    exists f, key_f. split; [exact Hkf|]. split; [exact Hu|]. split; [|exact Hpost].
    intros j key_in key_out Hj. apply Hpre. lia.
Qed.

(** C8 (what the code does). Whatever the identifier below
    KMGR_MAX_INTERNAL_KEYS, KmgrGetKey returns the null pointer. *)
Theorem KmgrGetKey_returns_NULL (id : Z) :
  id < N -> KmgrGetKey N assert_checking id = OK NULL.
Proof.
  intros H. unfold KmgrGetKey.
  replace (id <? N) with true by (symmetry; apply Z.ltb_lt; exact H).
  rewrite andb_false_r. reflexivity.
Qed.


End Coordinator.

Lemma KmgrGetKey_returns_NULL_witness :
  0 < 1 /\ KmgrGetKey 1 true 0 = OK NULL.
Proof. split; [lia | apply (KmgrGetKey_returns_NULL 1 true 0); lia]. Defined.

(** C3, counterexample: the first key file unwraps under the context of
    the passphrase and the second one does not.  InitializeKmgr raises the
    passphrase error, and the first slot of the cache, zero before, now
    holds the plaintext of the first key. *)
Lemma InitializeKmgr_partial_install :
  unwraps (aead := toy_aead) 7 [3; 9; 23; 33] = false /\
  InitializeKmgr (aead := toy_aead) 2 4 1024 c_StrNCpy sample_pipe true "echo secret-pw"
    false 64 (fun _ => "x"%char) [7] [] second_key_damaged =
  (ERROR passphrase_does_not_match,
   mk_state (disk second_key_damaged) [[2; 10; 20; 0]; [0; 0; 0; 0]] ["echo secret-pw"]) /\
  intlKeys (snd (InitializeKmgr (aead := toy_aead) 2 4 1024 c_StrNCpy sample_pipe true
                   "echo secret-pw" false 64 (fun _ => "x"%char) [7] [] second_key_damaged))
    <> intlKeys second_key_damaged.
Proof.
  split; [reflexivity|]. split; [vm_compute; reflexivity|]. vm_compute. discriminate.
Qed.

Lemma InitializeKmgr_unwraps_into_cache_witness :
  exists st',
    InitializeKmgr (aead := toy_aead) 2 4 1024 c_StrNCpy sample_pipe true "echo secret-pw"
      false 64 (fun _ => "x"%char) [7] [] both_keys_sound = (OK tt, st') /\
    intlKeys st' = sample_deks.
Proof.
  destruct (InitializeKmgr_unwraps_into_cache (aead := toy_aead) 2 4 1024 c_StrNCpy
              sample_pipe "echo secret-pw" false 64 (fun _ => "x"%char) [7] []
              both_keys_sound (wrapped_under 7 sample_deks)
              [115; 101; 99; 114; 101; 116; 45; 112; 119; 10] 10
              eq_refl eq_refl ltac:(vm_compute; reflexivity) eq_refl)
    as (r & st' & Hrun & _ & _ & Hok & _).
  destruct (Hok eq_refl) as [-> _].
  exists st'. split; [exact Hrun|].
  vm_compute in Hrun. injection Hrun as <-. reflexivity.
Defined.

(** After pg_rotate_cluster_passphrase the key files are those wrapped
    under the old context: a startup that verifies under the new context
    (here 9, the old one being 7) raises the passphrase error, and one that
    verifies under the old context installs the data keys. *)
Lemma rotation_keeps_old_wrapping :
  pg_rotate_cluster_passphrase 2 4 true loaded_under_old = (OK true, loaded_under_old) /\
  fst (InitializeKmgr (aead := toy_aead) 2 4 1024 c_StrNCpy sample_pipe true "echo new-pw"
         false 64 (fun _ => "x"%char) [9] []
         (snd (pg_rotate_cluster_passphrase 2 4 true loaded_under_old))) =
    ERROR passphrase_does_not_match /\
  fst (InitializeKmgr (aead := toy_aead) 2 4 1024 c_StrNCpy sample_pipe true "echo new-pw"
         false 64 (fun _ => "x"%char) [7] []
         (snd (pg_rotate_cluster_passphrase 2 4 true loaded_under_old))) = OK tt.
Proof. repeat split; vm_compute; reflexivity. Qed.

(** ** The passphrase command *)

Section CommandFacts.

Variable MAXPGPATH : nat.
Variable StrNCpy : list ascii -> nat -> string -> nat -> result (list ascii).

Local Abbreviation endp := (endp MAXPGPATH).
Local Abbreviation put_char := (put_char MAXPGPATH).
Local Abbreviation put_chars := (put_chars MAXPGPATH).
Local Abbreviation substitute := (substitute MAXPGPATH StrNCpy).
Local Abbreviation build_command_buffer := (build_command_buffer MAXPGPATH StrNCpy).
Local Abbreviation build_command := (build_command MAXPGPATH StrNCpy).

Ltac case_ascii x :=
  destruct x as [[] [] [] [] [] [] [] []]; try reflexivity; try discriminate.

Lemma put_chars_cons c cs command dp :
  put_chars (c :: cs) command dp =
  put_chars cs (fst (put_char command dp c)) (snd (put_char command dp c)).
Proof. unfold_put_chars. simpl. destruct (put_char command dp c); reflexivity. Qed.

(** The loop on a template without [%p] emits [literal_text]. *)
Lemma substitute_literal_step c rest command dp :
  has_prompt_token (String c rest) = false ->
  exists rest',
    (String.length rest' <= String.length rest)%nat /\
    has_prompt_token rest' = false /\
    (rest' = rest \/ exists y, rest = String y rest') /\
    literal_text (String c rest) = c :: literal_text rest' /\
    substitute (String c rest) command dp =
      substitute rest' (fst (put_char command dp c)) (snd (put_char command dp c)).
Proof.
  intros H. step_substitute.
  destruct (Ascii.eqb c "%") eqn:Ec.
  - apply Ascii.eqb_eq in Ec. subst c.
    destruct rest as [|x rest'].
    + exists EmptyString. split; [simpl; lia|]. split; [reflexivity|].
      split; [left; reflexivity|]. split; [reflexivity|].
      destruct (put_char command dp "%"); reflexivity.
    + destruct (Ascii.eqb x "p") eqn:Ep.
      { apply Ascii.eqb_eq in Ep. subst x. discriminate. }
      destruct (Ascii.eqb x "%") eqn:Epc.
      * apply Ascii.eqb_eq in Epc. subst x.
        exists rest'. split; [simpl; lia|]. split; [exact H|].
        split; [right; eexists; reflexivity|]. split; [reflexivity|].
        destruct (put_char command dp "%"); reflexivity.
      * exists (String x rest'). split; [simpl; lia|].
        assert (Hh : has_prompt_token (String x rest') = false).
        { revert H Ep Epc. clear. case_ascii x; auto. }
        split; [exact Hh|]. split; [left; reflexivity|].
        split.
        { revert Ep Epc. clear. case_ascii x. }
        revert Ep Epc. clear. intros Ep Epc.
        destruct (put_char command dp "%") eqn:E.
        revert Ep Epc. case_ascii x; intros; rewrite ?E; reflexivity.
  - exists rest. split; [lia|]. split; [exact H|].
    split; [left; reflexivity|]. split; [reflexivity|].
    destruct (put_char command dp c); reflexivity.
Qed.

Lemma substitute_literal p command dp :
  has_prompt_token p = false ->
  substitute p command dp = OK (put_chars (literal_text p) command dp).
Proof.
  remember (String.length p) as n eqn:Hn.
  assert (Hle : (String.length p <= n)%nat) by lia. clear Hn.
  revert p command dp Hle. induction n as [|n IH]; intros p command dp Hle H.
  - destruct p; [reflexivity | simpl in Hle; lia].
  - destruct p as [|c rest]; [reflexivity|].
    destruct (substitute_literal_step c rest command dp H)
      as (rest' & Hlen & Hh & _ & Hlit & Hsub).
    rewrite Hsub, Hlit, put_chars_cons.
    apply IH; [simpl in Hle; lia | exact Hh].
Qed.


Lemma literal_text_no_NUL p :
  has_prompt_token p = false ->
  no_NUL (list_ascii_of_string p) = true -> no_NUL (literal_text p) = true.
Proof.
  remember (String.length p) as n eqn:Hn.
  assert (Hle : (String.length p <= n)%nat) by lia. clear Hn.
  revert p Hle. induction n as [|n IH]; intros p Hle H Hp.
  - destruct p; [reflexivity | simpl in Hle; lia].
  - destruct p as [|c rest]; [reflexivity|].
    destruct (substitute_literal_step c rest [] O H)
      as (rest' & Hlen & Hh & Hrest & Hlit & _).
    rewrite Hlit. unfold no_NUL in *. cbn [list_ascii_of_string forallb] in *.
    apply andb_true_iff in Hp as [Hc Hr]. rewrite Hc. simpl.
    apply IH; [simpl in Hle; lia | exact Hh |].
    destruct Hrest as [->|[y ->]]; [exact Hr|].
    cbn [list_ascii_of_string forallb] in Hr. apply andb_true_iff in Hr as [_ Hr]. exact Hr.
Qed.

Lemma put_chars_spec cs command dp :
  (dp <= endp)%nat -> (endp < length command)%nat ->
  snd (put_chars cs command dp) = (dp + Nat.min (endp - dp) (length cs))%nat /\
  length (fst (put_chars cs command dp)) = length command /\
  firstn (snd (put_chars cs command dp)) (fst (put_chars cs command dp)) =
    (firstn dp command ++ firstn (endp - dp) cs)%list.
Proof.
  revert command dp. induction cs as [|c cs IH]; intros command dp Hdp Hlen.
  - unfold_put_chars. simpl. rewrite Nat.min_0_r, Nat.add_0_r, firstn_nil, app_nil_r. auto.
  - rewrite put_chars_cons. unfold_put_char.
    destruct (Nat.ltb dp endp) eqn:E; cbn [fst snd].
    + apply Nat.ltb_lt in E.
      destruct (IH (<[dp := c]> command) (S dp) ltac:(lia) ltac:(rewrite length_insert; lia))
        as (H1 & H2 & H3).
      rewrite H3, H2, H1, length_insert. split; [simpl; lia|]. split; [reflexivity|].
      rewrite (take_S_r _ _ c) by (apply list_lookup_insert_eq; lia).
      rewrite take_insert_ge by lia. rewrite <- app_assoc. f_equal.
      replace (endp - dp)%nat with (S (endp - S dp)) by lia. reflexivity.
    + apply Nat.ltb_ge in E.
      destruct (IH command dp Hdp Hlen) as (H1 & H2 & H3).
      rewrite H3, H2, H1. split; [lia|]. split; [reflexivity|].
      replace (endp - dp)%nat with O by lia. reflexivity.
Qed.

Lemma c_string_app_NUL xs ys :
  no_NUL xs = true -> c_string (xs ++ NUL :: ys) = string_of_list_ascii xs.
Proof.
  induction xs as [|x xs IH]; intros H; simpl.
  - reflexivity.
  - simpl in H. apply andb_true_iff in H as [Hx Hxs].
    apply negb_true_iff in Hx. rewrite Hx, IH by exact Hxs. reflexivity.
Qed.

Lemma no_NUL_firstn n cs : no_NUL cs = true -> no_NUL (firstn n cs) = true.
Proof.
  revert n. induction cs as [|c cs IH]; intros n H; destruct n; simpl in *; try reflexivity.
  apply andb_true_iff in H as [Hc Hcs]. rewrite Hc. simpl. apply IH, Hcs.
Qed.


(** C4 (as amended). For a template without [%p], whatever StrNCpy does,
    the command is the text of the template with each [%%] turned into one
    [%] and every other character, a lone [%] included, copied as it is,
    cut after MAXPGPATH - 1 characters; building it never fails. *)
Theorem build_command_literal (stack : nat -> ascii) (p : string) :
  (0 < MAXPGPATH)%nat ->
  has_prompt_token p = false ->
  no_NUL (list_ascii_of_string p) = true ->
  build_command stack p =
    OK (string_of_list_ascii (firstn (MAXPGPATH - 1) (literal_text p))).
Proof.
  intros HM Hp Hnul.
  unfold_build.
  rewrite substitute_literal by exact Hp.
  set (command0 := <[endp := NUL]> (map stack (seq 0 MAXPGPATH))).
  assert (Hlen0 : length command0 = MAXPGPATH).
  { unfold command0. rewrite length_insert, length_map, length_seq. reflexivity. }
  destruct (put_chars_spec (literal_text p) command0 O) as (H1 & H2 & H3).
  { lia. }
  { rewrite Hlen0. unfold_endp. lia. }
  destruct (put_chars (literal_text p) command0 0) as [command dp] eqn:E.
  cbn [fst snd] in H1, H2, H3. rewrite Nat.sub_0_r in H1, H3. simpl in H1, H3.
  unfold poke.
  assert (Hdp : (dp < length command)%nat).
  { rewrite H2, Hlen0, H1. unfold_endp. lia. }
  apply Nat.ltb_lt in Hdp as Hdpb. rewrite Hdpb. f_equal.
  rewrite insert_take_drop by exact Hdp. rewrite H3.
  apply c_string_app_NUL, no_NUL_firstn, literal_text_no_NUL; assumption.
Qed.

End CommandFacts.

Lemma build_command_literal_witness :
  build_command 1024 c_StrNCpy (fun _ => "x"%char) "printf 100%% secret-pw" =
    OK "printf 100% secret-pw".
Proof.
  exact (build_command_literal 1024 c_StrNCpy (fun _ => "x"%char) "printf 100%% secret-pw"
           ltac:(lia) eq_refl eq_refl).
Defined.

(** C4, counterexample: for a [%s] in the template the specification emits
    [s] alone, while the loop emits the [%] and then the [s]; and for a
    [%p] the specification emits the whole prompt and goes on, while the
    command that is run stops before the last character of the prompt. *)
Lemma build_command_differs_from_spec :
  build_command 1024 c_StrNCpy (fun _ => "x"%char) "printf %s secret-pw" =
    OK "printf %s secret-pw" /\
  spec_command 1024 "printf %s secret-pw" = "printf s secret-pw" /\
  build_command 1024 c_StrNCpy (fun _ => "x"%char) "echo %p | cat" =
    OK "echo Enter database encryption pass phrase" /\
  spec_command 1024 "echo %p | cat" =
    "echo Enter database encryption pass phrase: | cat" /\
  build_command 1024 c_StrNCpy (fun _ => "x"%char) "printf %s secret-pw" <>
    OK (spec_command 1024 "printf %s secret-pw") /\
  build_command 1024 c_StrNCpy (fun _ => "x"%char) "echo %p | cat" <>
    OK (spec_command 1024 "echo %p | cat").
Proof.
  repeat split; try (vm_compute; reflexivity); vm_compute; discriminate.
Qed.

(** The [%p] case has no test against [endp]: close to the end of the
    buffer the prompt is written past it. *)
Lemma build_command_prompt_overrun :
  build_command 1024 c_StrNCpy (fun _ => "x"%char)
    (string_of_list_ascii (repeat "a"%char 1000) ++ "%p") = ERROR buffer_overrun.
Proof. vm_compute. reflexivity. Qed.

(** ** More on the key store *)

(** X1. The names kmgr_get_cryptokeys takes up and the identifiers below
    16^4 correspond one to one: the identifier parsed from such a name is
    below 16^4 and formats back to the name, every identifier below 16^4
    formats to such a name and parses back, and two such names with the
    same identifier are the same name. *)
Theorem key_file_names_and_ids :
  (forall name, is_key_file_name name = true ->
     0 <= to_uint32 (strtoul16 name) < 65536 /\
     CryptoKeyFileName (to_uint32 (strtoul16 name)) = name) /\
  (forall id, 0 <= id < 65536 ->
     is_key_file_name (CryptoKeyFileName id) = true /\
     to_uint32 (strtoul16 (CryptoKeyFileName id)) = id) /\
  (forall name name', is_key_file_name name = true -> is_key_file_name name' = true ->
     to_uint32 (strtoul16 name) = to_uint32 (strtoul16 name') -> name = name').
Proof.
  split; [|split].
  - intros name H. destruct (key_file_name_roundtrip name H). auto.
  - apply key_file_id_roundtrip.
  - intros name name' H H' E.
    destruct (key_file_name_roundtrip name H) as [<- _].
    destruct (key_file_name_roundtrip name' H') as [<- _].
    rewrite E. reflexivity.
Qed.

Ltac unfold_read_one H := unfold read_one_keyfile in H.
Ltac unfold_read_one_goal := unfold read_one_keyfile.
Ltac unfold_read_one_all := unfold read_one_keyfile in *.
Ltac unfold_load_in H := unfold kmgr_get_cryptokeys in H.

Section MoreKeyStore.

Variable N : Z.
Variable sz : nat.

Local Abbreviation kmgr_get_cryptokeys := (kmgr_get_cryptokeys N sz).
Local Abbreviation read_entries := (read_entries N sz).
Local Abbreviation read_one_keyfile := (read_one_keyfile sz).

(** X2. A directory without any key file, an empty one included, loads
    without error: all slots are zero and the count is 0. *)
Theorem kmgr_get_cryptokeys_no_key_file (fs : filesystem) (p : path) (d : directory) :
  fs_dir fs p = Some d ->
  key_files d = [] ->
  kmgr_get_cryptokeys fs p = OK (repeat (repeat 0 sz) (Z.to_nat N), 0).
Proof.
  intros Hd Hk. rewrite (kmgr_get_cryptokeys_dir N sz fs p d Hd).
  rewrite <- (read_entries_key_files N sz p d d). rewrite Hk. reflexivity.
Qed.

(** The identifiers of the key files of a listing with distinct names are
    distinct. *)
Lemma key_ids_NoDup d :
  List.NoDup (map fst d) -> List.NoDup (map entry_id (key_files d)).
Proof.
  induction d as [|[name b] d IH]; intros Hnd; [constructor|].
  simpl in Hnd. apply List.NoDup_cons_iff in Hnd as [Hnot Hnd].
  destruct (is_key_file_name name) eqn:Hn.
  - rewrite key_files_cons_key by exact Hn. simpl. constructor; [|apply IH, Hnd].
    intros Hin. apply in_map_iff in Hin as ([name' b'] & Hid & Hin').
    apply filter_In in Hin' as [Hin' Hk'].
    unfold entry_id, key_entry in *. simpl in *.
    assert (name' = name).
    { destruct (key_file_name_roundtrip _ Hn) as [<- _].
      destruct (key_file_name_roundtrip _ Hk') as [<- _]. rewrite Hid. reflexivity. }
    subst name'. apply Hnot. apply in_map_iff. exists (name, b'). auto.
  - rewrite key_files_cons_other by exact Hn. apply IH, Hnd.
Qed.

Lemma key_files_app (d d' : directory) :
  key_files (d ++ d')%list = (key_files d ++ key_files d')%list.
Proof. unfold key_files. apply List.filter_app. Qed.

(** Where the loop raises "too many": after [N] or more key files. *)
Lemma read_entries_too_many p d entries keys n :
  read_entries p d entries keys n = ERROR too_many_keys ->
  exists pre e post,
    entries = (pre ++ e :: post)%list /\
    key_entry e = true /\ 0 <= entry_id e < N /\
    N <= n + Z.of_nat (length (key_files pre)) /\
    Forall (fun x => key_entry x = true -> 0 <= entry_id x < N) pre.
Proof.
  revert keys n. induction entries as [|[name b] rest IH]; intros keys n H; [discriminate|].
  destruct (is_key_file_name name) eqn:Hn.
  - rewrite read_entries_cons_key in H by exact Hn. cbv zeta in H.
    destruct (key_file_name_roundtrip _ Hn) as [_ [Hlo _]].
    destruct (_ >=? N) eqn:E1 in H; [discriminate|].
    rewrite Z.geb_leb in E1. apply Z.leb_gt in E1.
    destruct (n >=? N) eqn:E2.
    + apply Z.geb_le in E2. exists [], (name, b), rest.
      split; [reflexivity|]. split; [exact Hn|]. split; [unfold entry_id; simpl; lia|].
      split; [simpl; lia | constructor].
    + destruct (read_one_keyfile _ _ _) as [k|e] eqn:Hr.
      * apply IH in H as (pre & e & post & -> & Hk & Hid & Hcount & Hall).
        exists ((name, b) :: pre), e, post.
        split; [reflexivity|]. split; [exact Hk|]. split; [exact Hid|].
        rewrite key_files_cons_key by exact Hn. cbn [length].
        split; [lia|]. constructor; [|exact Hall].
        intros _. unfold entry_id. simpl. lia.
      * unfold_read_one Hr.
        destruct (dir_file d _); [destruct (Nat.eqb _ _)|]; congruence.
  - rewrite read_entries_cons_other in H by exact Hn.
    apply IH in H as (pre & e & post & -> & Hk & Hid & Hcount & Hall).
    exists ((name, b) :: pre), e, post.
    split; [reflexivity|]. split; [exact Hk|]. split; [exact Hid|].
    rewrite key_files_cons_other by exact Hn.
    split; [exact Hcount|]. constructor; [|exact Hall].
    unfold key_entry. simpl. congruence.
Qed.

Lemma ids_to_nat_NoDup (ids : list Z) :
  List.NoDup ids -> Forall (fun i => 0 <= i < N) ids -> List.NoDup (map Z.to_nat ids).
Proof.
  intros Hnd Hall. induction ids as [|i ids IH]; [constructor|].
  apply List.NoDup_cons_iff in Hnd as [Hnot Hnd]. apply Forall_cons in Hall as [Hi Hall].
  simpl. constructor; [|apply IH; assumption].
  intros Hin. apply in_map_iff in Hin as (j & Hj & Hin).
  rewrite Forall_forall in Hall. specialize (Hall j ltac:(apply list_elem_of_In; exact Hin)).
  assert (j = i) by lia. subst j. contradiction.
Qed.

Lemma ids_to_nat_incl (ids : list Z) :
  Forall (fun i => 0 <= i < N) ids -> incl (map Z.to_nat ids) (seq 0 (Z.to_nat N)).
Proof.
  intros Hall x Hx. apply in_map_iff in Hx as (j & <- & Hin). apply in_seq.
  rewrite Forall_forall in Hall. specialize (Hall j ltac:(apply list_elem_of_In; exact Hin)). lia.
Qed.

(** Distinct identifiers below [N] are at most [N]. *)
Lemma distinct_ids_bound (ids : list Z) :
  List.NoDup ids -> Forall (fun i => 0 <= i < N) ids -> Z.of_nat (length ids) <= Z.max N 0.
Proof.
  intros Hnd Hall.
  pose proof (List.NoDup_incl_length (ids_to_nat_NoDup ids Hnd Hall)
                (ids_to_nat_incl ids Hall)) as Hlen.
  rewrite length_map, length_seq in Hlen. lia.
Qed.

(** As many distinct identifiers below [N] as [N] are all of them. *)
Lemma distinct_ids_all (ids : list Z) (i : Z) :
  List.NoDup ids -> Forall (fun i => 0 <= i < N) ids -> Z.of_nat (length ids) = N ->
  0 <= i < N -> In i ids.
Proof.
  intros Hnd Hall Hlen Hi.
  assert (Hin : In (Z.to_nat i) (map Z.to_nat ids)).
  { assert (Hincl : incl (seq 0 (Z.to_nat N)) (map Z.to_nat ids)).
    { apply (List.NoDup_length_incl (ids_to_nat_NoDup ids Hnd Hall)).
      - rewrite length_map, length_seq. lia.
      - apply ids_to_nat_incl, Hall. }
    apply Hincl, in_seq. lia. }
  apply in_map_iff in Hin as (j & Hj & Hin).
  rewrite Forall_forall in Hall. specialize (Hall j ltac:(apply list_elem_of_In; exact Hin)) as Hj'.
  assert (j = i) by lia. subst j. exact Hin.
Qed.

(** X3. For a directory whose entries have distinct names, as the entries of
    a directory have, kmgr_get_cryptokeys never raises "too many
    cryptographic keys": before there are more key files than slots, one of
    them has an identifier out of range. *)
Theorem kmgr_get_cryptokeys_never_too_many (fs : filesystem) (p : path) (d : directory) :
  fs_dir fs p = Some d ->
  List.NoDup (map fst d) ->
  kmgr_get_cryptokeys fs p <> ERROR too_many_keys.
Proof.
  intros Hd Hnd H. rewrite (kmgr_get_cryptokeys_dir N sz fs p d Hd) in H.
  apply read_entries_too_many in H as (pre & e & post & Hsplit & Hk & Hid & Hcount & Hall).
  pose proof (key_ids_NoDup d Hnd) as Hids.
  rewrite Hsplit, key_files_app in Hids.
  destruct e as [name b]. rewrite key_files_cons_key in Hids by exact Hk.
  rewrite map_app in Hids. simpl in Hids.
  apply List.NoDup_remove_1 in Hids as Hrest.
  assert (Hpre : List.NoDup (map entry_id (key_files pre ++ [(name, b)]))).
  { rewrite map_app. simpl.
    apply NoDup_app_remove_r with (l' := map entry_id (key_files post)).
    rewrite <- app_assoc. exact Hids. }
  pose proof (distinct_ids_bound _ Hpre) as Hb.
  rewrite length_map, length_app in Hb. simpl in Hb.
  assert (Forall (fun i => 0 <= i < N) (map entry_id (key_files pre ++ [(name, b)]))).
  { rewrite Forall_forall. intros i Hi. apply list_elem_of_In, in_map_iff in Hi as (x & <- & Hx).
    apply in_app_iff in Hx as [Hx|[<-|[]]]; [|exact Hid].
    apply filter_In in Hx as [Hx Hkx]. rewrite Forall_forall in Hall.
    apply Hall; [apply list_elem_of_In; exact Hx | exact Hkx]. }
  specialize (Hb ltac:(assumption)). lia.
Qed.


(** X4. When a directory with distinct names loads with a count of
    KMGR_MAX_INTERNAL_KEYS, no identifier is missing: every slot holds the
    bytes read from the file of its identifier, none is left zero for want
    of a file.  This is what recoverIncompleteRotation relies on when it
    takes the count for a complete key set. *)
Theorem kmgr_get_cryptokeys_full_count (fs : filesystem) (p : path) (d : directory)
    (keys : list CryptoKey) :
  fs_dir fs p = Some d ->
  List.NoDup (map fst d) ->
  kmgr_get_cryptokeys fs p = OK (keys, N) ->
  forall i, 0 <= i < N ->
    exists bytes,
      dir_file d (CryptoKeyFileName i) = Some bytes /\
      (sz <= length bytes)%nat /\
      keys !! Z.to_nat i = Some (firstn sz bytes).
Proof.
  intros Hd Hnd H i Hi. rewrite (kmgr_get_cryptokeys_dir N sz fs p d Hd) in H.
  pose proof (read_entries_OK _ _ _ _ _ _ _ _ _ H) as (Hc & _ & _ & Hall).
  assert (Hids : Forall (fun i => 0 <= i < N) (map entry_id (key_files d))).
  { rewrite Forall_forall. intros j Hj. apply list_elem_of_In, in_map_iff in Hj as (e & <- & He).
    apply filter_In in He as [He Hk]. rewrite Forall_forall in Hall.
    apply (Hall e); [apply list_elem_of_In; exact He | exact Hk]. }
  pose proof (distinct_ids_all _ i (key_ids_NoDup d Hnd) Hids
                ltac:(rewrite length_map; lia) Hi) as Hin.
  apply in_map_iff in Hin as ([name b] & Hid & He). apply filter_In in He as [He Hk].
  rewrite Forall_forall in Hall.
  destruct (Hall (name, b) ltac:(apply list_elem_of_In; exact He) Hk) as [_ (bytes & Hf & Hfull)].
  unfold entry_id, key_entry in *. simpl in *.
  destruct (key_file_name_roundtrip _ Hk) as [Hrt _]. rewrite Hid in Hrt.
  exists bytes. rewrite Hrt. split; [exact Hf|].
  split; [apply Nat.leb_le; exact Hfull|].
  rewrite (read_entries_slots _ _ _ _ _ _ _ _ _ H)
    by (unfold zero_keys; try apply repeat_length; lia).
  assert (Hl : listed d i = true).
  { unfold listed. apply existsb_exists. exists (name, b). split; [exact He|].
    unfold key_entry, entry_id. simpl. rewrite Hk, Hid, Z.eqb_refl. reflexivity. }
  rewrite Hl. unfold key_of. rewrite Hrt, Hf. reflexivity.
Qed.

Lemma dir_file_same d d' name :
  same_key_files sz d d' ->
  match dir_file d name, dir_file d' name with
  | Some b, Some b' => same_key_bytes sz b b'
  | None, None => True
  | _, _ => False
  end.
Proof.
  induction 1 as [|[n b] [n' b'] d d' [Hn Hb] Hrest IH]; simpl; [exact I|].
  simpl in Hn, Hb. subst n'. destruct (String.eqb n name); [exact Hb | exact IH].
Qed.

Lemma read_one_keyfile_same p d d' id :
  same_key_files sz d d' -> read_one_keyfile p d id = read_one_keyfile p d' id.
Proof.
  intros H. pose proof (dir_file_same d d' (CryptoKeyFileName id) H) as Hf.
  unfold_read_one_goal.
  destruct (dir_file d _) as [b|], (dir_file d' _) as [b'|]; try contradiction; [|reflexivity].
  destruct Hf as [->|(Hb & Hb' & E)]; [reflexivity|].
  rewrite !Nat.min_r by assumption. rewrite Nat.eqb_refl, E. reflexivity.
Qed.

Lemma read_entries_same p d d' entries entries' keys n :
  (forall id, read_one_keyfile p d id = read_one_keyfile p d' id) ->
  Forall2 (fun e e' => fst e = fst e') entries entries' ->
  read_entries p d entries keys n = read_entries p d' entries' keys n.
Proof.
  intros Hd H. revert keys n.
  induction H as [|[name b] [name' b'] entries entries' Hn Hrest IH]; intros keys n;
    [reflexivity|].
  simpl in Hn. subst name'. simpl.
  destruct (is_key_file_name name); [|apply IH].
  rewrite Hd.
  repeat (match goal with |- context [if ?b then _ else _] => destruct b end; try reflexivity).
  destruct (read_one_keyfile _ _ _); [apply IH | reflexivity].
Qed.

(** X5. A load reads [sizeof(CryptoKey)] bytes of each key file and no
    more: bytes after them have no part in the result, so that a key file
    longer than a CryptoKey is taken like one of the exact size. *)
Theorem kmgr_get_cryptokeys_reads_sizeof (fs : filesystem) (p : path) (d d' : directory) :
  fs_dir fs p = Some d ->
  same_key_files sz d d' ->
  kmgr_get_cryptokeys (fs_set fs p (Some d')) p = kmgr_get_cryptokeys fs p.
Proof.
  intros Hd H.
  rewrite (kmgr_get_cryptokeys_dir N sz fs p d Hd).
  rewrite (kmgr_get_cryptokeys_dir N sz _ p d' (fs_dir_set _ _ _)).
  symmetry. apply read_entries_same.
  - intros id. apply read_one_keyfile_same, H.
  - clear -H. induction H as [|e e' d d' [Hn _] Hrest IH]; constructor; assumption.
Qed.

End MoreKeyStore.

Lemma kmgr_get_cryptokeys_no_key_file_witness :
  kmgr_get_cryptokeys 2 4 (mk_fs (Some [(".", []); ("..", []); ("000a", [1; 2; 3; 4])]) None)
    KMGR_DIR = OK ([[0; 0; 0; 0]; [0; 0; 0; 0]], 0).
Proof.
  exact (kmgr_get_cryptokeys_no_key_file 2 4
           (mk_fs (Some [(".", []); ("..", []); ("000a", [1; 2; 3; 4])]) None)
           KMGR_DIR _ eq_refl eq_refl).
Defined.

Lemma kmgr_get_cryptokeys_never_too_many_witness :
  kmgr_get_cryptokeys 1 4
    (mk_fs (Some [("0000", [1; 2; 3; 4]); ("0001", [5; 6; 7; 8])]) None) KMGR_DIR
  <> ERROR too_many_keys.
Proof.
  apply (kmgr_get_cryptokeys_never_too_many 1 4
           (mk_fs (Some [("0000", [1; 2; 3; 4]); ("0001", [5; 6; 7; 8])]) None) KMGR_DIR
           [("0000", [1; 2; 3; 4]); ("0001", [5; 6; 7; 8])] eq_refl).
  repeat constructor; simpl; intuition discriminate.
Defined.

Lemma kmgr_get_cryptokeys_full_count_witness :
  exists bytes,
    dir_file sample_dir (CryptoKeyFileName 1) = Some bytes /\
    (4 <= length bytes)%nat /\
    [[1; 2; 3; 4]; [5; 6; 7; 8]] !! Z.to_nat 1 = Some (firstn 4 bytes).
Proof.
  apply (kmgr_get_cryptokeys_full_count 2 4 (mk_fs (Some sample_dir) None) KMGR_DIR
           sample_dir [[1; 2; 3; 4]; [5; 6; 7; 8]] eq_refl).
  - repeat constructor; simpl; intuition discriminate.
  - reflexivity.
  - lia.
Defined.

Lemma kmgr_get_cryptokeys_reads_sizeof_witness :
  kmgr_get_cryptokeys 2 4
    (mk_fs (Some [("0000", [1; 2; 3; 4; 99; 98]); ("0001", [5; 6; 7; 8])]) None) KMGR_DIR =
  kmgr_get_cryptokeys 2 4
    (mk_fs (Some [("0000", [1; 2; 3; 4]); ("0001", [5; 6; 7; 8; 9])]) None) KMGR_DIR.
Proof.
  apply (kmgr_get_cryptokeys_reads_sizeof 2 4
           (mk_fs (Some [("0000", [1; 2; 3; 4]); ("0001", [5; 6; 7; 8; 9])]) None) KMGR_DIR
           [("0000", [1; 2; 3; 4]); ("0001", [5; 6; 7; 8; 9])]
           [("0000", [1; 2; 3; 4; 99; 98]); ("0001", [5; 6; 7; 8])] eq_refl).
  repeat constructor; simpl; right; repeat split; simpl; lia.
Defined.

(** ** More on the recovery *)

Section MoreRecovery.

Variable N : Z.
Variable sz : nat.

Local Abbreviation recoverIncompleteRotation := (recoverIncompleteRotation N sz).
Local Abbreviation kmgr_get_cryptokeys := (kmgr_get_cryptokeys N sz).
Local Abbreviation read_entries := (read_entries N sz).

(** A run that returns leaves a state on which a further run returns
    without change. *)
Lemma recover_OK_again fs r fs' :
  recoverIncompleteRotation fs = (OK r, fs') ->
  pg_cryptokeys_tmp fs' = None /\ recoverIncompleteRotation fs' = (OK tt, fs').
Proof.
  destruct fs as [[p|] [t|]]; try (intros [= <- <-]; split; reflexivity).
  rewrite recover_both.
  destruct (kmgr_get_cryptokeys _ _) as [[keys n]|e]; [|discriminate].
  destruct (n =? N); intros [= <- <-]; split; reflexivity.
Qed.

(** X6. A recoverIncompleteRotation that returns has taken no directory
    apart: the staging directory is gone, the primary directory is, whole,
    the primary or the staging directory it found, and it exists if either
    existed.  (A run that raises is not spoken of here: what a failed
    rmtree or rename leaves behind is not part of the file system of this
    development.) *)
Theorem recoverIncompleteRotation_keeps_directories (fs fs' : filesystem) (r : unit) :
  recoverIncompleteRotation fs = (OK r, fs') ->
  pg_cryptokeys_tmp fs' = None /\
  (pg_cryptokeys fs' = pg_cryptokeys fs \/ pg_cryptokeys fs' = pg_cryptokeys_tmp fs) /\
  (pg_cryptokeys fs' = None -> pg_cryptokeys fs = None /\ pg_cryptokeys_tmp fs = None).
Proof.
  destruct fs as [[p|] [t|]]; try (intros [= <- <-]; simpl; intuition (auto; discriminate)).
  rewrite recover_both.
  destruct (kmgr_get_cryptokeys _ _) as [[keys n]|e] eqn:H; [|discriminate].
  destruct (n =? N); intros [= <- <-]; simpl; intuition (auto; discriminate).
Qed.

(** The keys and the count of a load that returns are the same whatever
    the path the directory is opened under. *)
Lemma read_entries_path p p' d entries keys n r :
  read_entries p d entries keys n = OK r -> read_entries p' d entries keys n = OK r.
Proof.
  revert keys n. induction entries as [|[name b] rest IH]; intros keys n H; [exact H|].
  simpl in *. destruct (is_key_file_name name); [|apply IH, H].
  destruct (_ || _); [discriminate|]. destruct (n >=? N); [discriminate|].
  unfold_read_one_all.
  destruct (dir_file d _); [|discriminate].
  destruct (Nat.eqb _ _); [apply IH, H | discriminate].
Qed.

(** X7. When both directories exist and the staging directory loads with
    KMGR_MAX_INTERNAL_KEYS keys, the recovery puts it in place of the
    primary directory, and a load of the primary directory then returns
    just those keys with that count: the assertion that InitializeKmgr
    makes on the count holds after such a recovery. *)
Theorem recovery_then_load (p t : directory) (keys : list CryptoKey) :
  kmgr_get_cryptokeys (mk_fs (Some p) (Some t)) KMGR_TMP_DIR = OK (keys, N) ->
  recoverIncompleteRotation (mk_fs (Some p) (Some t)) = (OK tt, mk_fs (Some t) None) /\
  kmgr_get_cryptokeys (snd (recoverIncompleteRotation (mk_fs (Some p) (Some t)))) KMGR_DIR =
    OK (keys, N).
Proof.
  intros H. rewrite recover_both, H, Z.eqb_refl. split; [reflexivity|].
  simpl. unfold_load_in H. simpl in H. unfold_load. simpl.
  eapply read_entries_path, H.
Qed.

End MoreRecovery.

Lemma recovery_then_load_witness :
  kmgr_get_cryptokeys 2 4
    (snd (recoverIncompleteRotation 2 4 (mk_fs (Some [("0000", [9; 9; 9; 9])]) (Some sample_dir))))
    KMGR_DIR = OK ([[1; 2; 3; 4]; [5; 6; 7; 8]], 2).
Proof.
  exact (proj2 (recovery_then_load 2 4 [("0000", [9; 9; 9; 9])] sample_dir
                  [[1; 2; 3; 4]; [5; 6; 7; 8]] eq_refl)).
Defined.

Lemma recoverIncompleteRotation_keeps_directories_witness :
  recoverIncompleteRotation 2 4 (mk_fs (Some [("0000", [9; 9; 9; 9])]) (Some sample_dir)) =
    (OK tt, mk_fs (Some sample_dir) None) /\
  pg_cryptokeys_tmp (mk_fs (Some sample_dir) None) = None /\
  (pg_cryptokeys (mk_fs (Some sample_dir) None) = Some [("0000", [9; 9; 9; 9])] \/
   pg_cryptokeys (mk_fs (Some sample_dir) None) = Some sample_dir).
Proof.
  split; [reflexivity|].
  destruct (recoverIncompleteRotation_keeps_directories 2 4
              (mk_fs (Some [("0000", [9; 9; 9; 9])]) (Some sample_dir))
              (mk_fs (Some sample_dir) None) tt eq_refl) as (Htmp & Hprim & _).
  split; [exact Htmp | exact Hprim].
Defined.

(** ** More on startup and rotation *)

Ltac unfold_rotate := unfold pg_rotate_cluster_passphrase.
Ltac unfold_verify := unfold kmgr_verify_passphrase, kmgr_derive_keys.
Ltac unfold_run_in H := unfold kmgr_run_cluster_passphrase_command in H.

Section MoreCoordinator.

Context {aead : Aead}.
Variable N : Z.
Variable sz : nat.
Variable MAXPGPATH : nat.
Variable StrNCpy : list ascii -> nat -> string -> nat -> result (list ascii).
Variable command : string.
Variable assert_checking : bool.
Variable KMGR_MAX_PASSPHRASE_LEN : nat.
Variable stack_command : nat -> ascii.
Variables stack_enckey stack_hmackey : list Z.

Local Abbreviation startup := (fun pipes enabled =>
  InitializeKmgr N sz MAXPGPATH StrNCpy pipes enabled command assert_checking
    KMGR_MAX_PASSPHRASE_LEN stack_command stack_enckey stack_hmackey).
Local Abbreviation run_command := (fun pipes =>
  kmgr_run_cluster_passphrase_command MAXPGPATH StrNCpy pipes assert_checking
    stack_command command KMGR_MAX_PASSPHRASE_LEN).
Local Abbreviation rotate := (pg_rotate_cluster_passphrase N sz).
Local Abbreviation recover := (recoverIncompleteRotation N sz).

Lemma unwrap_from_length ctx keys_in keys_out i todo ok out :
  unwrap_from ctx keys_in keys_out i todo = OK (ok, out) ->
  length out = length keys_out.
Proof.
  revert keys_out i. induction todo as [|todo IH]; intros keys_out i Hu.
  - simpl in Hu. injection Hu as _ <-. reflexivity.
  - simpl in Hu. destruct (keys_in !! i); [|discriminate].
    destruct (keys_out !! i); [|discriminate].
    destruct (kmgr_unwrap_key _ _ _) as [okd out']. destruct (negb okd).
    + injection Hu as _ <-. apply length_insert.
    + apply IH in Hu. rewrite Hu. apply length_insert.
Qed.

(** X8. A rotation that returns changes nothing for the startup that
    follows: InitializeKmgr gives the same result and the same state after
    pg_rotate_cluster_passphrase as without it; and the rotation itself
    never touches the cache nor runs the passphrase command. *)
Theorem rotation_then_startup (pipes : string -> pipe) (st : state) :
  fst (rotate true st) = OK true ->
  startup pipes true (snd (rotate true st)) = startup pipes true st /\
  intlKeys (snd (rotate true st)) = intlKeys st /\
  commands_run (snd (rotate true st)) = commands_run st.
Proof.
  unfold_rotate. cbn [negb].
  destruct (recover (disk st)) as [[r|e] fs] eqn:Hr; [|discriminate].
  intros _. split; [|split; reflexivity].
  apply recover_OK_again in Hr as Hagain. destruct Hagain as [_ Hagain].
  unfold_startup. cbn [negb snd set_disk disk intlKeys commands_run].
  rewrite Hr, Hagain. reflexivity.
Qed.

(** X9. The passphrase has no part in the startup: kmgr_derive_keys leaves
    the two key buffers as they were, so that with two passphrase commands
    that both succeed, whatever they print, InitializeKmgr gives the same
    result and the same state. *)
Theorem InitializeKmgr_ignores_passphrase (pipes pipes' : string -> pipe)
    (passphrase passphrase' : list Z) (passlen passlen' : Z) (enabled : bool) (st : state) :
  run_command pipes = OK (passphrase, passlen) ->
  run_command pipes' = OK (passphrase', passlen') ->
  startup pipes enabled st = startup pipes' enabled st.
Proof.
  intros H H'. unfold_startup. rewrite H, H'. reflexivity.
Qed.

(** X10. What InitializeKmgr does to the state, whatever the outcome: the
    key directories are as recoverIncompleteRotation leaves them, the
    passphrase command is run at most once, the cache keeps its number of
    slots, and it is written only when the verification itself ran: after
    any error other than the passphrase error the cache is as before. *)
Theorem InitializeKmgr_effects (pipes : string -> pipe) (st : state) :
  let r := fst (startup pipes true st) in
  let st' := snd (startup pipes true st) in
  disk st' = snd (recover (disk st)) /\
  (commands_run st' = commands_run st \/ commands_run st' = command :: commands_run st) /\
  length (intlKeys st') = length (intlKeys st) /\
  (forall e, r = ERROR e -> e <> passphrase_does_not_match -> intlKeys st' = intlKeys st).
Proof.
  unfold_startup. cbn [negb].
  destruct (recover (disk st)) as [[r|e] fs]; [|simpl; intuition].
  cbn [set_disk disk intlKeys commands_run].
  destruct (kmgr_get_cryptokeys N sz fs KMGR_DIR) as [[keys_wrap nkeys]|e] eqn:Hl;
    [|simpl; intuition].
  destruct (assert_checking && _); [simpl; intuition|].
  destruct (kmgr_run_cluster_passphrase_command _ _ _ _ _ _ _) as [[pp len]|e];
    [|simpl; intuition].
  unfold_verify.
  destruct (unwrap_from _ keys_wrap (intlKeys st) 0 (Z.to_nat N)) as [[ok out]|e] eqn:Hu;
    [|simpl; intuition].
  apply unwrap_from_length in Hu as Hlen.
  destruct ok; simpl; intuition congruence.
Qed.


(** X11. kmgr_verify_passphrase on arrays of at least [nkeys] keys: it
    returns true exactly when each of the first [nkeys] keys unwraps under
    the context made from the key buffers, it keeps the number of slots of
    [keys_out], and it never writes a slot from [nkeys] on. *)
Theorem kmgr_verify_passphrase_spec (enckey hmackey passphrase : list Z) (passlen : Z)
    (keys_in keys_out : list CryptoKey) (nkeys : Z) :
  (Z.to_nat nkeys <= length keys_in)%nat ->
  (Z.to_nat nkeys <= length keys_out)%nat ->
  exists ok out,
    kmgr_verify_passphrase enckey hmackey passphrase passlen keys_in keys_out nkeys =
      OK (ok, out) /\
    ok = unwraps_all (pg_create_aead_ctx enckey hmackey) (firstn (Z.to_nat nkeys) keys_in) /\
    length out = length keys_out /\
    (forall j, (Z.to_nat nkeys <= j)%nat -> out !! j = keys_out !! j).
Proof.
  intros Hin Hout. unfold_verify.
  set (ctx := pg_create_aead_ctx enckey hmackey).
  destruct (unwrap_from_spec ctx keys_in keys_out 0 (Z.to_nat nkeys) ltac:(lia) ltac:(lia))
    as (ok & out & Hrun & Hlen & _ & Hok & Hfail).
  exists ok, out. split; [exact Hrun|]. split; [|split; [exact Hlen|]].
  - destruct ok.
    + destruct (Hok eq_refl) as [Hall _]. symmetry. unfold unwraps_all. apply forallb_forall.
      intros key_in Hk. apply list_elem_of_In, list_elem_of_lookup in Hk as [j Hj].
      apply lookup_take_Some in Hj as [Hj Hlt].
      destruct (keys_out !! j) as [key_out|] eqn:Eo; [|apply lookup_ge_None in Eo; lia].
      destruct (Hall j key_in key_out ltac:(lia) Hj Eo) as [Hu _]. exact Hu.
    + destruct (Hfail eq_refl) as (f & key_f & Hfr & Hkf & Hu & _).
      symmetry. apply not_true_is_false. intros Hall. unfold unwraps_all in Hall.
      rewrite forallb_forall in Hall.
      assert (Hk : In key_f (firstn (Z.to_nat nkeys) keys_in)).
      { apply list_elem_of_In. apply (list_elem_of_lookup_2 _ f).
        apply lookup_take_Some. split; [exact Hkf | lia]. }
      specialize (Hall key_f Hk). unfold unwraps in Hu. congruence.
  - intros j Hj. destruct ok.
    + destruct (Hok eq_refl) as [_ Hafter]. apply Hafter. lia.
    + destruct (Hfail eq_refl) as (f & key_f & Hfr & _ & _ & _ & Hpost). apply Hpost. lia.
Qed.

End MoreCoordinator.

Lemma rotation_then_startup_witness :
  InitializeKmgr (aead := toy_aead) 2 4 1024 c_StrNCpy sample_pipe true "echo secret-pw"
    false 64 (fun _ => "x"%char) [7] []
    (snd (pg_rotate_cluster_passphrase 2 4 true both_keys_sound)) =
  InitializeKmgr (aead := toy_aead) 2 4 1024 c_StrNCpy sample_pipe true "echo secret-pw"
    false 64 (fun _ => "x"%char) [7] [] both_keys_sound.
Proof.
  exact (proj1 (rotation_then_startup (aead := toy_aead) 2 4 1024 c_StrNCpy "echo secret-pw"
                  false 64 (fun _ => "x"%char) [7] [] sample_pipe both_keys_sound eq_refl)).
Defined.

Lemma InitializeKmgr_ignores_passphrase_witness :
  InitializeKmgr (aead := toy_aead) 2 4 1024 c_StrNCpy sample_pipe true "echo secret-pw"
    false 64 (fun _ => "x"%char) [7] [] both_keys_sound =
  InitializeKmgr (aead := toy_aead) 2 4 1024 c_StrNCpy silent_pipe true "echo secret-pw"
    false 64 (fun _ => "x"%char) [7] [] both_keys_sound.
Proof.
  apply (InitializeKmgr_ignores_passphrase (aead := toy_aead) 2 4 1024 c_StrNCpy
           "echo secret-pw" false 64 (fun _ => "x"%char) [7] [] sample_pipe silent_pipe
           [115; 101; 99; 114; 101; 116; 45; 112; 119; 10] [0] 10 0 true both_keys_sound);
    vm_compute; reflexivity.
Defined.

Lemma kmgr_verify_passphrase_spec_witness :
  exists ok out,
    kmgr_verify_passphrase (aead := toy_aead) [7] [] [] 0
      [[3; 7; 13; 19]; [3; 9; 23; 33]] [[0; 0; 0; 0]; [0; 0; 0; 0]] 1 = OK (ok, out) /\
    ok = true /\ out !! 1%nat = Some [0; 0; 0; 0].
Proof.
  destruct (kmgr_verify_passphrase_spec (aead := toy_aead) [7] [] [] 0
              [[3; 7; 13; 19]; [3; 9; 23; 33]] [[0; 0; 0; 0]; [0; 0; 0; 0]] 1
              ltac:(simpl; lia) ltac:(simpl; lia))
    as (ok & out & Hrun & Hok & _ & Hafter).
  exists ok, out. split; [exact Hrun|]. split; [exact Hok|].
  apply (Hafter 1%nat). simpl. lia.
Defined.

(** ** More on the passphrase command *)

Ltac unfold_run := unfold kmgr_run_cluster_passphrase_command.
Ltac step_loop := cbn [substitute].
Ltac unfold_put_char_in H := unfold put_char in H.

Lemma length_list_ascii_of_string (s : string) :
  length (list_ascii_of_string s) = String.length s.
Proof. induction s as [|c s IH]; simpl; [reflexivity | rewrite IH; reflexivity]. Qed.

Lemma string_of_list_ascii_app (l1 l2 : list ascii) :
  string_of_list_ascii (l1 ++ l2) = string_of_list_ascii l1 ++ string_of_list_ascii l2.
Proof. induction l1 as [|c l1 IH]; simpl; [reflexivity | rewrite IH; reflexivity]. Qed.

Section MoreCommand.

Variable MAXPGPATH : nat.
Variable StrNCpy : list ascii -> nat -> string -> nat -> result (list ascii).
Variable OpenPipeStream : string -> pipe.

Local Abbreviation endp := (endp MAXPGPATH).
Local Abbreviation put_char := (put_char MAXPGPATH).
Local Abbreviation put_chars := (put_chars MAXPGPATH).
Local Abbreviation substitute := (substitute MAXPGPATH StrNCpy).
Local Abbreviation build_command := (build_command MAXPGPATH StrNCpy).
Local Abbreviation keeps_length := (keeps_length StrNCpy).
Local Abbreviation terminates_copy := (terminates_copy StrNCpy).
Variable assert_checking : bool.

Local Abbreviation run_command :=
  (kmgr_run_cluster_passphrase_command MAXPGPATH StrNCpy OpenPipeStream assert_checking).

(** X12. kmgr_run_cluster_passphrase_command returns exactly when [size]
    is positive or the build has no assertions, the command could be
    built and started, no read error came with a short read, and the
    command exited with status 0.  It then returns the number of bytes
    read, the smaller of [size] and the length of the output, and [buf]
    starts with the output of the command as it is, a final newline
    included, cut after [size] bytes, or with the NUL stored first when
    nothing was read. *)
Theorem kmgr_run_cluster_passphrase_command_returns (stack : nat -> ascii)
    (template : string) (size : nat) (buf : list Z) (len : Z) :
  run_command stack template size = OK (buf, len) <->
  (assert_checking = true -> (0 < size)%nat) /\
  exists command,
    build_command stack template = OK command /\
    pipe_opened (OpenPipeStream command) = true /\
    ((length (pipe_output (OpenPipeStream command)) < size)%nat ->
       pipe_ferror (OpenPipeStream command) = false) /\
    pipe_close_rc (OpenPipeStream command) = 0 /\
    len = Z.of_nat (Nat.min size (length (pipe_output (OpenPipeStream command)))) /\
    0 <= len <= Z.of_nat size /\
    buf = (if len =? 0 then [0] else firstn size (pipe_output (OpenPipeStream command))).
Proof.
  unfold_run.
  assert (Hbuf : forall read : list Z,
            (read ++ skipn (length read) [0])%list =
            if Z.of_nat (length read) =? 0 then [0] else read).
  { intros [|x read]; [reflexivity|]. cbn [length skipn]. rewrite skipn_nil, app_nil_r.
    destruct (Z.of_nat (S (length read)) =? 0) eqn:E; [apply Z.eqb_eq in E; lia | reflexivity]. }
  split.
  - destruct (assert_checking && negb (Nat.ltb 0 size)) eqn:Ha; [discriminate|].
    destruct (build_command stack template) as [command|e]; [|discriminate].
    set (fh := OpenPipeStream command).
    destruct (pipe_opened fh) eqn:Ho; [|discriminate]. cbn [negb].
    destruct (Nat.ltb _ size && _) eqn:Hf; [discriminate|].
    destruct (pipe_close_rc fh =? -1) eqn:H1; [discriminate|].
    destruct (pipe_close_rc fh =? 0) eqn:H0; [|discriminate]. cbn [negb].
    intros [= <- <-]. split.
    { intros ->. cbn [andb] in Ha. apply negb_false_iff, Nat.ltb_lt in Ha. exact Ha. }
    exists command. fold fh. rewrite Hbuf.
    rewrite length_firstn. apply Z.eqb_eq in H0.
    repeat split; try assumption; try lia.
    intros Hshort. apply andb_false_iff in Hf as [Hf|Hf]; [|exact Hf].
    apply Nat.ltb_ge in Hf. rewrite length_firstn in Hf. lia.
  - intros (Ha & command & -> & Ho & Hf & H0 & -> & _ & ->).
    replace (assert_checking && negb (Nat.ltb 0 size)) with false.
    2:{ destruct assert_checking; [|reflexivity]. cbn [andb].
        symmetry. apply negb_false_iff, Nat.ltb_lt, Ha. reflexivity. }
    rewrite Ho. cbn [negb]. rewrite H0. cbn [Z.eqb negb].
    rewrite Hbuf. rewrite length_firstn.
    destruct (Nat.ltb _ size) eqn:E.
    + apply Nat.ltb_lt in E. rewrite Hf by lia. reflexivity.
    + reflexivity.
Qed.

Ltac case_char x :=
  destruct x as [[] [] [] [] [] [] [] []]; try reflexivity; try discriminate.

(** One round of the loop: a [%p] calls StrNCpy and moves [dp] by the
    length of the prompt, anything else goes through [put_char]. *)
Lemma substitute_step c rest command dp :
  (exists rest' x,
     (String.length rest' <= String.length rest)%nat /\
     substitute (String c rest) command dp =
       substitute rest' (fst (put_char command dp x)) (snd (put_char command dp x))) \/
  (exists rest',
     (String.length rest' < String.length rest)%nat /\
     substitute (String c rest) command dp =
       match StrNCpy command dp KMGR_PROMPT_MSG (strlen KMGR_PROMPT_MSG) with
       | ERROR e => ERROR e
       | OK command' => substitute rest' command' (dp + strlen KMGR_PROMPT_MSG)
       end).
Proof.
  step_loop. destruct (Ascii.eqb c "%") eqn:Ec.
  - destruct rest as [|x rest'].
    + left. exists EmptyString, c. split; [simpl; lia|].
      destruct (put_char command dp c); reflexivity.
    + destruct (Ascii.eqb x "p") eqn:Ep.
      { apply Ascii.eqb_eq in Ep. subst x. right. exists rest'. split; [simpl; lia | reflexivity]. }
      destruct (Ascii.eqb x "%") eqn:Epc.
      * apply Ascii.eqb_eq in Epc. subst x. left. exists rest', "%"%char.
        split; [simpl; lia|]. destruct (put_char command dp "%"); reflexivity.
      * left. exists (String x rest'), c. split; [simpl; lia|].
        destruct (put_char command dp c) eqn:E.
        revert Ep Epc. clear -E. case_char x; intros; rewrite ?E; reflexivity.
  - left. exists rest, c. split; [lia|]. destruct (put_char command dp c); reflexivity.
Qed.

(** Once [dp] is past [endp], it stays there and nothing is stored through
    [put_char]. *)
Lemma substitute_past_end p command dp command' dp' :
  keeps_length ->
  (endp < dp)%nat ->
  substitute p command dp = OK (command', dp') ->
  (dp <= dp')%nat /\ length command' = length command.
Proof.
  intros Hk. remember (String.length p) as n eqn:Hn.
  assert (Hle : (String.length p <= n)%nat) by lia. clear Hn.
  revert p command dp Hle. induction n as [|n IH]; intros p command dp Hle Hdp H.
  - destruct p; [|simpl in Hle; lia]. simpl in H. injection H as <- <-. split; [lia | reflexivity].
  - destruct p as [|c rest]; [simpl in H; injection H as <- <-; split; [lia | reflexivity]|].
    simpl in Hle.
    destruct (substitute_step c rest command dp) as [(rest' & x & Hlen & Hs)|(rest' & Hlen & Hs)];
      rewrite Hs in H.
    + unfold_put_char_in H.
      replace (Nat.ltb dp endp) with false in H by (symmetry; apply Nat.ltb_ge; lia).
      cbn [fst snd] in H. apply IH in H; [exact H | lia | exact Hdp].
    + destruct (StrNCpy command dp _ _) as [command1|e] eqn:Hc; [|discriminate].
      apply IH in H; [|lia|lia]. destruct H as [H1 H2].
      rewrite (Hk _ _ _ _ _ Hc) in H2. split; [lia | exact H2].
Qed.

(** A prefix without [%] is emitted character by character. *)
Lemma substitute_plain_prefix prefix p command dp :
  plain prefix = true ->
  substitute (prefix ++ p) command dp =
  substitute p (fst (put_chars (list_ascii_of_string prefix) command dp))
    (snd (put_chars (list_ascii_of_string prefix) command dp)).
Proof.
  revert command dp. induction prefix as [|c rest IH]; intros command dp H.
  - reflexivity.
  - simpl in H. apply andb_true_iff in H as [Hc Hr]. apply negb_true_iff in Hc.
    change (String c rest ++ p) with (String c (rest ++ p)). step_loop. rewrite Hc.
    cbn [list_ascii_of_string]. rewrite put_chars_cons.
    destruct (put_char command dp c) as [c1 d1]. cbn [fst snd]. apply IH, Hr.
Qed.


Lemma length_command0 (stack : nat -> ascii) :
  length (<[endp := NUL]> (map stack (seq 0 MAXPGPATH))) = MAXPGPATH.
Proof. rewrite length_insert, length_map, length_seq. reflexivity. Qed.

(** X13. The [%p] case is not guarded by [endp].  When the first [%] of the
    template is a [%p] that comes after so many plain characters that the
    prompt does not fit before the end of the array, the command is never
    built: StrNCpy or the final store of the terminator writes outside
    [command].  This holds for any StrNCpy that keeps the size of the
    array. *)
Theorem build_command_prompt_overruns (stack : nat -> ascii) (prefix rest : string) :
  keeps_length ->
  (0 < MAXPGPATH)%nat ->
  plain prefix = true ->
  (MAXPGPATH <= String.length prefix + strlen KMGR_PROMPT_MSG)%nat ->
  is_OK (build_command stack (prefix ++ "%p" ++ rest)) = false.
Proof.
  intros Hk HM Hplain Hlong. unfold_build.
  set (command0 := <[endp := NUL]> (map stack (seq 0 MAXPGPATH))).
  pose proof (length_command0 stack) as Hlen0. fold command0 in Hlen0.
  rewrite substitute_plain_prefix by exact Hplain.
  destruct (put_chars_spec MAXPGPATH (list_ascii_of_string prefix) command0 O) as (H1 & H2 & _).
  { lia. }
  { rewrite Hlen0. unfold_endp. lia. }
  destruct (put_chars (list_ascii_of_string prefix) command0 0) as [command1 dp1].
  cbn [fst snd] in *. change ("%p" ++ rest) with (String "%" (String "p" rest)). step_loop.
  cbn [Ascii.eqb Bool.eqb].
  destruct (StrNCpy command1 dp1 _ _) as [command2|e] eqn:Hc; [|reflexivity].
  destruct (substitute rest command2 _) as [[command3 dp3]|e] eqn:Hs; [|reflexivity].
  rewrite length_list_ascii_of_string in H1.
  apply substitute_past_end in Hs as [Hdp Hlen]; [|exact Hk|unfold_endp; simpl in *; lia].
  rewrite (Hk _ _ _ _ _ Hc), H2, Hlen0 in Hlen.
  unfold poke. replace (Nat.ltb dp3 (length command3)) with false; [reflexivity|].
  symmetry. apply Nat.ltb_ge. unfold_endp. simpl in *. lia.
Qed.

(** X14. With a StrNCpy as c.h describes it, the substitution of [%p] loses
    the last character of the prompt and ends the command there: for a
    template made of plain characters, a [%p] that fits, and a rest
    without [%p], the command is the plain characters followed by the
    prompt without its colon; nothing of the rest of the template is in
    it. *)
Theorem build_command_prompt_ends_command (stack : nat -> ascii) (prefix rest : string) :
  terminates_copy ->
  plain prefix = true ->
  no_NUL (list_ascii_of_string prefix) = true ->
  (String.length prefix + strlen KMGR_PROMPT_MSG < MAXPGPATH)%nat ->
  has_prompt_token rest = false ->
  build_command stack (prefix ++ "%p" ++ rest) =
    OK (prefix ++ "Enter database encryption pass phrase").
Proof.
  intros Hcopy Hplain Hnul Hfit Hrest. unfold_build.
  set (command0 := <[endp := NUL]> (map stack (seq 0 MAXPGPATH))).
  pose proof (length_command0 stack) as Hlen0. fold command0 in Hlen0.
  rewrite substitute_plain_prefix by exact Hplain.
  destruct (put_chars_spec MAXPGPATH (list_ascii_of_string prefix) command0 O) as (H1 & H2 & H3).
  { lia. }
  { rewrite Hlen0. unfold_endp. lia. }
  destruct (put_chars (list_ascii_of_string prefix) command0 0) as [command1 dp1].
  cbn [fst snd] in *. rewrite length_list_ascii_of_string in H1.
  assert (Hdp1 : dp1 = String.length prefix) by (unfold_endp; simpl in *; lia).
  rewrite Nat.sub_0_r in H3. simpl in H3.
  rewrite (take_ge (list_ascii_of_string prefix)) in H3
    by (rewrite length_list_ascii_of_string; unfold_endp; simpl in *; lia).
  change ("%p" ++ rest) with (String "%" (String "p" rest)). step_loop.
  cbn [Ascii.eqb Bool.eqb].
  destruct (Hcopy command1 dp1 KMGR_PROMPT_MSG (strlen KMGR_PROMPT_MSG))
    as (command2 & -> & Hlen2 & Htake2).
  { simpl. lia. }
  { rewrite H2, Hlen0. simpl in *. lia. }
  { simpl. lia. }
  rewrite H3 in Htake2.
  rewrite substitute_literal by exact Hrest.
  set (dp2 := (dp1 + strlen KMGR_PROMPT_MSG)%nat) in *.
  destruct (put_chars_spec MAXPGPATH (literal_text rest) command2 dp2) as (H4 & H5 & H6).
  { unfold_endp. simpl in *. lia. }
  { rewrite Hlen2, H2, Hlen0. unfold_endp. lia. }
  destruct (put_chars (literal_text rest) command2 dp2) as [command3 dp3].
  cbn [fst snd] in *.
  assert (Hdp3 : (dp2 <= dp3 /\ dp3 < length command3)%nat).
  { rewrite H5, Hlen2, H2, Hlen0. unfold_endp. simpl in *. lia. }
  unfold poke. replace (Nat.ltb dp3 (length command3)) with true
    by (symmetry; apply Nat.ltb_lt; lia).
  f_equal.
  set (final := <[dp3 := NUL]> command3).
  assert (Hfinal : firstn dp2 final =
            (list_ascii_of_string prefix ++
             firstn (strlen KMGR_PROMPT_MSG - 1) (list_ascii_of_string KMGR_PROMPT_MSG) ++
             [NUL])%list).
  { unfold final. rewrite take_insert_ge by lia.
    replace (firstn dp2 command3) with (firstn dp2 (firstn dp3 command3))
      by (rewrite take_take; f_equal; lia).
    rewrite H6, take_app_le by (rewrite length_firstn; lia).
    rewrite take_take. replace (Nat.min dp2 dp2) with dp2 by lia. exact Htake2. }
  rewrite <- (firstn_skipn dp2 final), Hfinal.
  rewrite app_assoc, <- app_assoc. cbn [app].
  rewrite c_string_app_NUL.
  - rewrite string_of_list_ascii_app, string_of_list_ascii_of_string. reflexivity.
  - unfold no_NUL in *. rewrite forallb_app, Hnul. reflexivity.
Qed.

End MoreCommand.

(** The macro of c.h, as modelled, is such a StrNCpy. *)
Lemma c_StrNCpy_keeps_length : keeps_length c_StrNCpy.
Proof.
  intros buf dst src len buf'. unfold c_StrNCpy, strncpy, poke_all, poke.
  destruct (Nat.ltb 0 len); [|intros [= <-]; reflexivity].
  destruct (Nat.leb _ _) eqn:E; [|discriminate]. apply Nat.leb_le in E.
  destruct (Nat.ltb _ _); [|discriminate]. intros [= <-].
  rewrite length_insert, !length_app, (length_firstn dst buf), length_skipn. lia.
Qed.

Lemma c_StrNCpy_terminates_copy : terminates_copy c_StrNCpy.
Proof.
  intros buf dst src len Hlen Hfit Hsrc. unfold c_StrNCpy, strncpy, poke_all, poke.
  replace (Nat.ltb 0 len) with true by (symmetry; apply Nat.ltb_lt; lia).
  set (cs := firstn len (list_ascii_of_string src ++ repeat NUL len)).
  assert (Hcs : length cs = len).
  { unfold cs. rewrite length_firstn, length_app, repeat_length. lia. }
  rewrite Hcs. replace (Nat.leb (dst + len) (length buf)) with true
    by (symmetry; apply Nat.leb_le; lia).
  set (buf1 := (firstn dst buf ++ cs ++ skipn (dst + len) buf)%list).
  assert (Hlen1 : length buf1 = length buf).
  { unfold buf1. rewrite !length_app, length_firstn, length_skipn, Hcs. lia. }
  replace (Nat.ltb (dst + len - 1) (length buf1)) with true
    by (symmetry; apply Nat.ltb_lt; lia).
  eexists. split; [reflexivity|]. split; [rewrite length_insert; exact Hlen1|].
  rewrite take_insert_lt by lia.
  assert (Hd : length (firstn dst buf) = dst) by (rewrite length_firstn; lia).
  unfold buf1. rewrite take_app_ge by lia. rewrite Hd.
  replace (dst + len - dst)%nat with len by lia.
  rewrite take_app_le by lia. rewrite (firstn_all2 cs) by lia.
  replace (dst + len - 1)%nat with (length (firstn dst buf) + (len - 1))%nat by lia.
  rewrite insert_app_r. f_equal.
  assert (Hsplit : cs = (firstn (len - 1) (list_ascii_of_string src) ++
                         skipn (len - 1) cs)%list).
  { rewrite <- (firstn_skipn (len - 1) cs) at 1. f_equal. unfold cs.
    rewrite take_take. replace (Nat.min (len - 1) len) with (len - 1)%nat by lia.
    apply take_app_le. rewrite length_list_ascii_of_string. exact Hsrc. }
  rewrite Hsplit at 1.
  assert (Hl : length (firstn (len - 1) (list_ascii_of_string src)) = (len - 1)%nat).
  { rewrite length_firstn, length_list_ascii_of_string. lia. }
  rewrite insert_app_r_alt by lia. rewrite Hl, Nat.sub_diag. f_equal.
  destruct (skipn (len - 1) cs) as [|x [|y l]] eqn:Ed.
  - apply (f_equal length) in Ed. rewrite length_skipn, Hcs in Ed. simpl in Ed. lia.
  - reflexivity.
  - apply (f_equal length) in Ed. rewrite length_skipn, Hcs in Ed. simpl in Ed. lia.
Qed.

Lemma build_command_prompt_overruns_witness :
  is_OK (build_command 64 c_StrNCpy (fun _ => "x"%char)
           ("echo 0123456789012345678901" ++ "%p" ++ " | cat")) = false.
Proof.
  apply (build_command_prompt_overruns 64 c_StrNCpy (fun _ => "x"%char)
           "echo 0123456789012345678901" " | cat" c_StrNCpy_keeps_length);
    [lia | reflexivity | simpl; lia].
Defined.

Lemma build_command_prompt_ends_command_witness :
  build_command 1024 c_StrNCpy (fun _ => "x"%char) ("echo " ++ "%p" ++ " | tr a-z A-Z") =
    OK "echo Enter database encryption pass phrase".
Proof.
  apply (build_command_prompt_ends_command 1024 c_StrNCpy (fun _ => "x"%char)
           "echo " " | tr a-z A-Z" c_StrNCpy_terminates_copy);
    [reflexivity | reflexivity | simpl; lia | reflexivity].
Defined.

(** ** The cache from its set-up to the startup *)

Ltac unfold_shmem_init := unfold KmgrShmemInit.

Section CacheSetup.

Context {aead : Aead}.
Variable N : Z.
Variable sz : nat.
Variable MAXPGPATH : nat.
Variable StrNCpy : list ascii -> nat -> string -> nat -> result (list ascii).
Variable OpenPipeStream : string -> pipe.
Variable command : string.
Variable assert_checking : bool.
Variable KMGR_MAX_PASSPHRASE_LEN : nat.
Variable stack_command : nat -> ascii.
Variables stack_enckey stack_hmackey : list Z.

Local Abbreviation InitializeKmgr :=
  (InitializeKmgr N sz MAXPGPATH StrNCpy OpenPipeStream true command assert_checking
     KMGR_MAX_PASSPHRASE_LEN stack_command stack_enckey stack_hmackey).
Local Abbreviation KmgrShmemInit := (KmgrShmemInit N sz true).
Local Abbreviation recover := (recoverIncompleteRotation N sz).

Lemma recover_ERROR_corrupt fs e fs' :
  recover fs = (ERROR e, fs') -> is_corrupt e = true.
Proof.
  destruct fs as [[p|] [t|]]; try discriminate.
  rewrite recover_both.
  destruct (kmgr_get_cryptokeys _ _ _ _) as [[keys n]|e0] eqn:H.
  - destruct (n =? N); discriminate.
  - intros [= <- _]. unfold_load_in H. simpl in H. eapply load_ERROR_corrupt, H.
Qed.

(** X15. KmgrShmemInit on a fresh segment gives the cache as many slots,
    all zero, as kmgr_get_cryptokeys gives keys, which is what the loop of
    kmgr_verify_passphrase needs: when the passphrase command can be built,
    the InitializeKmgr that follows never reads or writes outside an
    array, whatever the key directories hold. *)
Theorem KmgrShmemInit_then_InitializeKmgr (st : state) (built : string) :
  build_command MAXPGPATH StrNCpy stack_command command = OK built ->
  intlKeys (KmgrShmemInit false st) = repeat (repeat 0 sz) (Z.to_nat N) /\
  fst (InitializeKmgr (KmgrShmemInit false st)) <> ERROR buffer_overrun.
Proof.
  intros Hb. unfold_shmem_init. cbn [negb intlKeys]. split; [reflexivity|].
  unfold_startup. cbn [negb disk intlKeys commands_run set_disk].
  destruct (recover (disk st)) as [[r|e] fs] eqn:Hr.
  - destruct (kmgr_get_cryptokeys N sz fs KMGR_DIR) as [[keys_wrap nkeys]|e] eqn:Hl.
    + destruct (assert_checking && _); [discriminate|].
      unfold_run.
      destruct (assert_checking && negb (Nat.ltb 0 KMGR_MAX_PASSPHRASE_LEN)); [discriminate|].
      rewrite Hb.
      destruct (negb (pipe_opened _)); [discriminate|].
      destruct (_ && _); [discriminate|].
      destruct (_ =? -1); [discriminate|].
      destruct (negb _); [discriminate|].
      unfold_verify.
      assert (Hkw : length keys_wrap = Z.to_nat N).
      { unfold_load_in Hl. destruct (fs_dir fs KMGR_DIR) as [d|]; [|discriminate].
        apply read_entries_OK in Hl as (_ & -> & _). apply repeat_length. }
      destruct (unwrap_from_spec (pg_create_aead_ctx stack_enckey stack_hmackey) keys_wrap
                  (zero_keys N sz) 0 (Z.to_nat N))
        as (ok & out & -> & _); [lia | unfold zero_keys; rewrite repeat_length; lia |].
      destruct ok; discriminate.
    + simpl. intros [= ->]. unfold_load_in Hl.
      destruct (fs_dir fs KMGR_DIR) as [d|]; [|discriminate].
      apply load_ERROR_corrupt in Hl. discriminate.
  - simpl. intros [= ->]. apply recover_ERROR_corrupt in Hr. discriminate.
Qed.

End CacheSetup.

Lemma KmgrShmemInit_then_InitializeKmgr_witness :
  fst (InitializeKmgr (aead := toy_aead) 2 4 1024 c_StrNCpy sample_pipe true "echo secret-pw"
         false 64 (fun _ => "x"%char) [7] []
         (KmgrShmemInit 2 4 true false second_key_damaged)) <> ERROR buffer_overrun.
Proof.
  exact (proj2 (KmgrShmemInit_then_InitializeKmgr (aead := toy_aead) 2 4 1024 c_StrNCpy
                  sample_pipe "echo secret-pw" false 64 (fun _ => "x"%char) [7] []
                  second_key_damaged "echo secret-pw" ltac:(vm_compute; reflexivity))).
Defined.

